(** * ThreadedCodeDemo: the code planter and the dispatch engines

    A shallow embedding of the four translation units of the repository
    ([direct_threading_demo.cpp], [benchmarking/Switch.cpp],
    [benchmarking/ComputedGotos.cpp], [benchmarking/main2.cpp]) and the
    properties of the planter (the one-pass compiler) and of the engines
    (the dispatch loops) that its specification states.

    Conventions of the embedding.
    - A [std::vector<T>] is a [list T]; [v.size()] is [vsize v], [v[i]] is
      [vget]/[vset], [push_back] appends at the end.  The vector [indexes]
      is only used as a stack ([push_back], [back], [pop_back]); its list
      has the back of the vector at its head.
    - An [int] is a [Z]; every conversion to [int] goes through [to_int],
      the 32-bit two's complement wrap-around.  A [num] ([unsigned char])
      is a [Z] reduced by [to_num].
    - The source file is the list of the characters that [input.get()]
      returns before the stream stops being [good()]; [std::cin] is the
      list of the characters still to be read; the bytes a call inserts
      into [outStream] are a list, in emission order.
    - Undefined behaviour and exceptions of the C++ code are explicit
      [Fault]s: the embedding stops there and says why. *)

From Stdlib Require Import ZArith Ascii String Lia.
From stdpp Require Import base list numbers.

Open Scope Z_scope.

(** ** Vectors, integers, faults *)

Definition vsize {A : Type} (v : list A) : Z := Z.of_nat (length v).

Definition vget {A : Type} (v : list A) (i : Z) : option A :=
  if i <? 0 then None else v !! Z.to_nat i.

Definition vset {A : Type} (v : list A) (i : Z) (x : A) : list A :=
  <[Z.to_nat i := x]> v.

Definition in_range {A : Type} (v : list A) (i : Z) : bool :=
  (0 <=? i) && (i <? vsize v).

(** Conversion to a 32-bit [int]. *)
Definition to_int (z : Z) : Z := (z + 2 ^ 31) mod 2 ^ 32 - 2 ^ 31.

(** Conversion to [num], i.e. [unsigned char]. *)
Definition to_num (z : Z) : Z := z mod 256.

Inductive Fault : Type :=
| EmptyBack       (* indexes.back() / pop_back() on an empty vector *)
| VectorRange     (* program[start] outside the vector *)
| InactiveMember  (* the union member read is not the one last written *)
| PcRange         (* *pc outside the program vector *)
| TapeRange       (* *loc outside the memory vector *)
| NullJump        (* goto *nullptr *)
| MapAt           (* opcode_map.at(key) throws std::out_of_range *).

Inductive Result (A : Type) : Type :=
| Ok (a : A)
| Undefined (f : Fault).
Arguments Ok {A} a.
Arguments Undefined {A} f.

(** [union Instruction { OpCode opcode; int operand; }], tagged with the
    member that was written. *)
Inductive Instruction (OpCode : Type) : Type :=
| I_opcode (opcode : OpCode)
| I_operand (operand : Z).
Arguments I_opcode {OpCode} opcode.
Arguments I_operand {OpCode} operand.

(** ** class CodePlanter

    The same class text appears in [Switch.cpp], [ComputedGotos.cpp] and
    [main2.cpp]; the three differ in the type [OpCode], in the map handed
    to the constructor and in the dummy planted after an [OPEN]
    ([{OpCode::HALT}] in [Switch.cpp], [{nullptr}] in the other two). *)

Module CodePlanter.
Section WithOpCode.
Context {OpCode : Type}.
(** [opcode_map.find(ch)]: [None] is [opcode_map.end()]. *)
Variable opcode_map : ascii -> option OpCode.
Variable dummy : Instruction OpCode.

Record state : Type := mk {
  program : list (Instruction OpCode);
  indexes : list Z
}.

Definition plantChar (ch : ascii) (cp : state) : Result state :=
  match opcode_map ch with
  | None => Ok cp
  | Some op =>
      let program1 := program cp ++ [I_opcode op] in
      if (ch =? "[")%char then
        Ok (mk (program1 ++ [dummy])
               (to_int (vsize program1) :: indexes cp))
      else if (ch =? "]")%char then
        let end_ := to_int (vsize program1) in
        match indexes cp with
        | [] => Undefined EmptyBack
        | start :: rest =>
            if in_range program1 start then
              Ok (mk (vset program1 start (I_operand (to_int (end_ + 1)))
                        ++ [I_operand (to_int (start + 1))])
                     rest)
            else Undefined VectorRange
        end
      else Ok (mk program1 (indexes cp))
  end.

(** The [for (;;)] loop of [plantProgram] over the characters of the file. *)
Fixpoint plantChars (src : list ascii) (cp : state) : Result state :=
  match src with
  | [] => Ok cp
  | ch :: src' =>
      match plantChar ch cp with
      | Ok cp' => plantChars src' cp'
      | Undefined f => Undefined f
      end
  end.

Definition plantProgram (src : list ascii) (cp : state) : Result state :=
  match plantChars src cp with
  | Ok cp' =>
      match opcode_map "000"%char with
      | Some halt => Ok (mk (program cp' ++ [I_opcode halt]) (indexes cp'))
      | None => Undefined MapAt
      end
  | Undefined f => Undefined f
  end.
End WithOpCode.
Arguments state : clear implicits.
End CodePlanter.

(** ** class Engine: the members and the locals of a run *)

Record Engine (OpCode : Type) : Type := mkEngine {
  program : list (Instruction OpCode);
  memory : list Z
}.
Arguments mkEngine {OpCode} program memory.
Arguments program {OpCode} e.
Arguments memory {OpCode} e.

(** [Engine() : memory( 30000 ) {}] *)
Definition fresh_memory : list Z := replicate (Z.to_nat 30000) 0.
Definition new_Engine {OpCode : Type} : Engine OpCode := mkEngine [] fresh_memory.
Arguments fresh_memory : simpl never.

(** The state a dispatch loop works on: the locals [pc] and [loc] (as
    indices into [program] and [memory]), the member [memory], what is left
    of [std::cin], and what the call has written to [outStream]. *)
Record Machine : Type := mkMachine {
  pc : Z;
  loc : Z;
  mem : list Z;
  cin : list Z;
  outStream : list Z
}.

Definition deref (m : Machine) : option Z := vget (mem m) (loc m).
Definition set_pc (n : Z) (m : Machine) : Machine :=
  mkMachine n (loc m) (mem m) (cin m) (outStream m).
Definition set_loc (l : Z) (m : Machine) : Machine :=
  mkMachine (pc m) l (mem m) (cin m) (outStream m).
Definition store (x : Z) (m : Machine) : Machine :=
  mkMachine (pc m) (loc m) (vset (mem m) (loc m) x) (cin m) (outStream m).
Definition put (x : Z) (m : Machine) : Machine :=
  mkMachine (pc m) (loc m) (mem m) (cin m) (outStream m ++ [x]).
Definition set_cin (rest : list Z) (m : Machine) : Machine :=
  mkMachine (pc m) (loc m) (mem m) rest (outStream m).

Inductive Step : Type :=
| Next (m : Machine)      (* the loop goes on *)
| Done (m : Machine)      (* HALT: return *)
| Stuck (f : Fault).

Inductive Outcome (A : Type) : Type :=
| Returned (a : A)
| Crashed (f : Fault)
| Running.                (* the fuel ran out before HALT *)
Arguments Returned {A} a.
Arguments Crashed {A} f.
Arguments Running {A}.

(** The bodies that every engine of the repository shares word for word. *)

(** [*loc += 1;] and [*loc -= 1;] *)
Definition do_add (d : Z) (m : Machine) : Step :=
  match deref m with
  | Some c => Next (store (to_num (c + d)) m)
  | None => Stuck TapeRange
  end.

(** [num i = *loc; outStream << i;] *)
Definition do_put (m : Machine) : Step :=
  match deref m with
  | Some c => Next (put c m)
  | None => Stuck TapeRange
  end.

(** [char ch; std::cin.get( ch ); if (std::cin.good()) { *loc = ch; }] *)
Definition do_get (m : Machine) : Step :=
  match cin m with
  | [] => Next m
  | ch :: rest =>
      match deref m with
      | Some _ => Next (store (to_num ch) (set_cin rest m))
      | None => Stuck TapeRange
      end
  end.

(** [int n = pc++->operand; if ( <test on *loc> ) { pc = &program_data[n]; }] *)
Definition do_jump {OpCode : Type} (program : list (Instruction OpCode))
    (test : Z -> bool) (m : Machine) : Step :=
  match vget program (pc m) with
  | None => Stuck PcRange
  | Some (I_opcode _) => Stuck InactiveMember
  | Some (I_operand n) =>
      let m1 := set_pc (pc m + 1) m in
      match deref m1 with
      | Some c => if test c then Next (set_pc n m1) else Next m1
      | None => Stuck TapeRange
      end
  end.

Definition is_zero (c : Z) : bool := c =? 0.
Definition not_zero (c : Z) : bool := negb (c =? 0).

(** The loop around a step function. *)
Fixpoint exec (step : Machine -> Step) (fuel : nat) (m : Machine) : Outcome Machine :=
  match fuel with
  | O => Running
  | S fuel' =>
      match step m with
      | Next m' => exec step fuel' m'
      | Done m' => Returned m'
      | Stuck f => Crashed f
      end
  end.

(** What a call of a run method leaves behind: the engine, the bytes
    written to [outStream], the rest of [std::cin]. *)
Record Ran (OpCode : Type) : Type := mkRan {
  engine : Engine OpCode;
  written : list Z;
  unread : list Z
}.
Arguments mkRan {OpCode} engine written unread.
Arguments engine {OpCode} r.
Arguments written {OpCode} r.
Arguments unread {OpCode} r.

(** The frame every run method has: plant the file behind the member
    [program], then start the dispatch loop at [&program_data[0]] and
    [&memory.data()[0]].  [header_needed] is [false], as in every call of
    the repository. *)
Definition run_with {OpCode : Type}
    (opcode_map : ascii -> option OpCode) (dummy : Instruction OpCode)
    (step : list (Instruction OpCode) -> Machine -> Step)
    (e : Engine OpCode) (src : list ascii) (input : list Z) (fuel : nat)
    : Outcome (Ran OpCode) :=
  match CodePlanter.plantProgram opcode_map dummy src
          (CodePlanter.mk (program e) []) with
  | Undefined f => Crashed f
  | Ok cp =>
      let program' := CodePlanter.program cp in
      match exec (step program') fuel (mkMachine 0 0 (memory e) input []) with
      | Returned m => Returned (mkRan (mkEngine program' (mem m)) (outStream m) (cin m))
      | Crashed f => Crashed f
      | Running => Running
      end
  end.

(** ** benchmarking/Switch.cpp *)

Module switch_.

Inductive OpCode : Type :=
| INCR | DECR | LEFT | RIGHT | OPEN | CLOSE | PUT | GET | HALT.

Definition opcode_map (ch : ascii) : option OpCode :=
  match ch with
  | "+"%char => Some INCR
  | "-"%char => Some DECR
  | "<"%char => Some LEFT
  | ">"%char => Some RIGHT
  | "["%char => Some OPEN
  | "]"%char => Some CLOSE
  | "."%char => Some PUT
  | ","%char => Some GET
  | "000"%char => Some HALT
  | _ => None
  end.

(** [program.push_back( {OpCode::HALT} );  //  Dummy value] *)
Definition dummy : Instruction OpCode := I_opcode HALT.

(** The opcodes whose case reads [pc++->operand]. *)
Definition takes_operand (op : OpCode) : bool :=
  match op with
  | OPEN | CLOSE => true
  | _ => false
  end.

(** One turn of [while (true) { switch ( pc++->opcode ) { ... } }] of
    [runMacros]; [runUnreachable] has the same cases. *)
Definition step (program : list (Instruction OpCode)) (m : Machine) : Step :=
  match vget program (pc m) with
  | None => Stuck PcRange
  | Some (I_operand _) => Stuck InactiveMember
  | Some (I_opcode op) =>
      let m1 := set_pc (pc m + 1) m in
      match op with
      | INCR => do_add 1 m1
      | DECR => do_add (-1) m1
      | RIGHT => Next (set_loc (loc m1 + 1) m1)
      | LEFT => Next (set_loc (loc m1 - 1) m1)
      | PUT => do_put m1
      | GET => do_get m1
      | OPEN => do_jump program is_zero m1
      | CLOSE => do_jump program not_zero m1
      | HALT => Done m1
      end
  end.

Definition runMacros := run_with opcode_map dummy step.
Definition runUnreachable := run_with opcode_map dummy step.

Definition compile (src : list ascii) : Result (CodePlanter.state OpCode) :=
  CodePlanter.plantProgram opcode_map dummy src (CodePlanter.mk [] []).

End switch_.

(** ** benchmarking/ComputedGotos.cpp *)

Module computed_gotos.

(** The labels of a run method. *)
Inductive Label : Type :=
| INCR | DECR | LEFT | RIGHT | OPEN | CLOSE | PUT | GET | HALT.

(** [using OpCode = void *;]: [&&LABEL], or [nullptr]. *)
Inductive OpCode : Type :=
| nullptr
| address_of (l : Label).

Definition opcode_map (ch : ascii) : option OpCode :=
  match ch with
  | "+"%char => Some (address_of INCR)
  | "-"%char => Some (address_of DECR)
  | "<"%char => Some (address_of LEFT)
  | ">"%char => Some (address_of RIGHT)
  | "["%char => Some (address_of OPEN)
  | "]"%char => Some (address_of CLOSE)
  | "."%char => Some (address_of PUT)
  | ","%char => Some (address_of GET)
  | "000"%char => Some (address_of HALT)
  | _ => None
  end.

(** [program.push_back( {nullptr} );  //  Dummy value] *)
Definition dummy : Instruction OpCode := I_opcode nullptr.

(** The labels whose block reads [pc++->operand]. *)
Definition takes_operand (op : OpCode) : bool :=
  match op with
  | address_of OPEN | address_of CLOSE => true
  | _ => false
  end.

(** The statements between a label and its [goto]. *)
Definition at_label (program : list (Instruction OpCode)) (l : Label)
    (m : Machine) : Step :=
  match l with
  | INCR => do_add 1 m
  | DECR => do_add (-1) m
  | RIGHT => Next (set_loc (loc m + 1) m)
  | LEFT => Next (set_loc (loc m - 1) m)
  | PUT => do_put m
  | GET => do_get m
  | OPEN => do_jump program is_zero m
  | CLOSE => do_jump program not_zero m
  | HALT => Done m
  end.

(** [goto *(pc++->opcode);] and the block it lands on.  [runFile],
    [runMacros] and [runUnreachable] all expand to this. *)
Definition step (program : list (Instruction OpCode)) (m : Machine) : Step :=
  match vget program (pc m) with
  | None => Stuck PcRange
  | Some (I_operand _) => Stuck InactiveMember
  | Some (I_opcode nullptr) => Stuck NullJump
  | Some (I_opcode (address_of l)) => at_label program l (set_pc (pc m + 1) m)
  end.

Definition runFile := run_with opcode_map dummy step.
Definition runMacros := run_with opcode_map dummy step.
Definition runUnreachable := run_with opcode_map dummy step.

Definition compile (src : list ascii) : Result (CodePlanter.state OpCode) :=
  CodePlanter.plantProgram opcode_map dummy src (CodePlanter.mk [] []).

End computed_gotos.

(** ** benchmarking/main2.cpp

    Namespace [two] repeats the planter, the map, the dummy and [runFile]
    of [ComputedGotos.cpp]; what it adds is [runFileLambdas], where the
    statements of every label are the body of a closure [[&](){ ... }()]
    that is called on the spot.

    Every run method fills [opcode_map] with the addresses of its own
    labels, and a label address belongs to the function that holds the
    label.  [OpCode] keeps the label and leaves out the function: a
    program stands for what the run method at hand has planted itself.
    What is stated of [runFileLambdas] is stated of engines that have
    planted nothing before the call, as in the test and the benchmarks of
    the file, where no [goto] meets an address of another function. *)

Module two.

Definition Label := computed_gotos.Label.
Definition OpCode := computed_gotos.OpCode.
Definition opcode_map := computed_gotos.opcode_map.
Definition dummy := computed_gotos.dummy.

Definition runFile := run_with opcode_map dummy computed_gotos.step.
Definition runFileWithUnreachable := run_with opcode_map dummy computed_gotos.step.

(** A closure that captures [pc], [loc], [program_data] and the streams
    by reference: a function of the machine. *)
Definition lambda : Type := Machine -> Step.

Definition lambda_of (program : list (Instruction OpCode))
    (l : Label) : lambda :=
  match l with
  | computed_gotos.INCR => fun m => do_add 1 m
  | computed_gotos.DECR => fun m => do_add (-1) m
  | computed_gotos.RIGHT => fun m => Next (set_loc (loc m + 1) m)
  | computed_gotos.LEFT => fun m => Next (set_loc (loc m - 1) m)
  | computed_gotos.PUT => fun m => do_put m
  | computed_gotos.GET => fun m => do_get m
  | computed_gotos.OPEN => fun m => do_jump program is_zero m
  | computed_gotos.CLOSE => fun m => do_jump program not_zero m
  | computed_gotos.HALT => fun m => Done m
  end.

Definition call (f : lambda) (m : Machine) : Step := f m.

Definition step_lambdas (program : list (Instruction OpCode))
    (m : Machine) : Step :=
  match vget program (pc m) with
  | None => Stuck PcRange
  | Some (I_operand _) => Stuck InactiveMember
  | Some (I_opcode computed_gotos.nullptr) => Stuck NullJump
  | Some (I_opcode (computed_gotos.address_of l)) =>
      call (lambda_of program l) (set_pc (pc m + 1) m)
  end.

Definition runFileLambdas := run_with opcode_map dummy step_lambdas.
Definition runFileLambdasAndUnreachable := run_with opcode_map dummy step_lambdas.

End two.

(** ** direct_threading_demo.cpp *)

Module direct_threading_demo.

Definition Label := computed_gotos.Label.
Definition OpCode := computed_gotos.OpCode.

Definition numberOfOpCodes : Z := 9.

(** [std::numeric_limits<size_t>::max()] of the [default:] case. *)
Definition size_t_max : Z := 2 ^ 64 - 1.

Definition OperatorToOpCodeIndex (opcodeCharacter : ascii) : Z :=
  match opcodeCharacter with
  | "+"%char => 0
  | "-"%char => 1
  | "<"%char => 2
  | ">"%char => 3
  | "["%char => 4
  | "]"%char => 5
  | "."%char => 6
  | ","%char => 7
  | "000"%char => 8
  | _ => size_t_max
  end.

(** The array [opcode_map] that [runFile] fills. *)
Definition opcode_array : list OpCode :=
  map computed_gotos.address_of
    [computed_gotos.INCR; computed_gotos.DECR; computed_gotos.LEFT;
     computed_gotos.RIGHT; computed_gotos.OPEN; computed_gotos.CLOSE;
     computed_gotos.PUT; computed_gotos.GET; computed_gotos.HALT].

(** The guard and the lookup at the head of [plantChar]:
    [return_if( opcodeIndex > numberOfOpCodes );] and then
    [opcode_map[opcodeIndex]]. *)
Definition opcode_map (ch : ascii) : option OpCode :=
  let opcodeIndex := OperatorToOpCodeIndex ch in
  if opcodeIndex >? numberOfOpCodes then None
  else vget opcode_array opcodeIndex.

Definition dummy : Instruction OpCode := I_opcode computed_gotos.nullptr.

(** The label blocks of [runFile] as the file has them: [RIGHT] and
    [LEFT] compute [std::next(loc)] and [std::prev(loc)] and drop the
    result, and [CLOSE] tests [*loc == 0] like [OPEN]. *)
Definition at_label (program : list (Instruction OpCode)) (l : Label)
    (m : Machine) : Step :=
  match l with
  | computed_gotos.INCR => do_add 1 m
  | computed_gotos.DECR => do_add (-1) m
  | computed_gotos.RIGHT => Next m
  | computed_gotos.LEFT => Next m
  | computed_gotos.PUT => do_put m
  | computed_gotos.GET => do_get m
  | computed_gotos.OPEN => do_jump program is_zero m
  | computed_gotos.CLOSE => do_jump program is_zero m
  | computed_gotos.HALT => Done m
  end.

Definition step (program : list (Instruction OpCode)) (m : Machine) : Step :=
  match vget program (pc m) with
  | None => Stuck PcRange
  | Some (I_operand _) => Stuck InactiveMember
  | Some (I_opcode computed_gotos.nullptr) => Stuck NullJump
  | Some (I_opcode (computed_gotos.address_of l)) =>
      at_label program l (set_pc (pc m + 1) m)
  end.

Definition runFile := run_with opcode_map dummy step.

Definition compile (src : list ascii) : Result (CodePlanter.state OpCode) :=
  CodePlanter.plantProgram opcode_map dummy src (CodePlanter.mk [] []).

End direct_threading_demo.

(** The characters of a source text. *)
Definition bf (s : string) : list ascii := list_ascii_of_string s.


(** ** Vocabulary of the specification *)

(** Bracket nesting of a source text, read from a depth [d]: [None] when a
    close bracket meets depth 0, otherwise the depth at the end. *)
Fixpoint nesting (d : nat) (src : list ascii) : option nat :=
  match src with
  | [] => Some d
  | ch :: src' =>
      if (ch =? "[")%char then nesting (S d) src'
      else if (ch =? "]")%char then
        match d with
        | O => None
        | S d' => nesting d' src'
        end
      else nesting d src'
  end.

Definition balanced (src : list ascii) : Prop := nesting 0 src = Some 0%nat.

(** The number of slots of the instruction sequence that a character, and
    a text, take. *)
Definition width {OpCode : Type} (opcode_map : ascii -> option OpCode)
    (ch : ascii) : Z :=
  match opcode_map ch with
  | None => 0
  | Some _ => if ((ch =? "[") || (ch =? "]"))%char then 2 else 1
  end.

Fixpoint slots {OpCode : Type} (opcode_map : ascii -> option OpCode)
    (src : list ascii) : Z :=
  match src with
  | [] => 0
  | ch :: src' => width opcode_map ch + slots opcode_map src'
  end.

(** Sizes for which no conversion to [int] in the planter wraps around,
    when the text is planted behind a program [p]. *)
Definition fits {I : Type} (p : list I) (src : list ascii) : Prop :=
  vsize p + 2 * vsize src + 2 < 2 ^ 31.

(** The same for the first text that an engine plants. *)
Definition short (src : list ascii) : Prop := 2 * vsize src + 2 < 2 ^ 31.

(** Every index on the stack [ix] points into the program [p]. *)
Definition stack_ok {I : Type} (p : list I) (ix : list Z) : Prop :=
  Forall (fun s => 0 <= s < vsize p) ix.

(** The slots whose index is on the stack still hold the dummy. *)
Definition unresolved {OpCode : Type} (dummy : Instruction OpCode)
    (p : list (Instruction OpCode)) (ix : list Z) : Prop :=
  NoDup ix /\ stack_ok p ix /\ forall s, s ∈ ix -> vget p s = Some dummy.

(** Whether the slot after [i] is the operand of [i]. *)
Definition wants_operand {OpCode : Type} (takes_operand : OpCode -> bool)
    (i : Instruction OpCode) : bool :=
  match i with
  | I_opcode o => takes_operand o
  | I_operand _ => false
  end.

(** The slots of a program that hold an opcode ([true]) and those that
    hold the operand of the opcode before them ([false]), read from the
    front; [skip] says that the slot at hand is an operand. *)
Fixpoint layout {OpCode : Type} (takes_operand : OpCode -> bool)
    (skip : bool) (p : list (Instruction OpCode)) : list bool :=
  match p with
  | [] => []
  | i :: p' =>
      if skip then false :: layout takes_operand false p'
      else true :: layout takes_operand (wants_operand takes_operand i) p'
  end.

(** Whether the program stops between an opcode and its operand. *)
Fixpoint open_ended {OpCode : Type} (takes_operand : OpCode -> bool)
    (skip : bool) (p : list (Instruction OpCode)) : bool :=
  match p with
  | [] => skip
  | i :: p' =>
      if skip then open_ended takes_operand false p'
      else open_ended takes_operand (wants_operand takes_operand i) p'
  end.

(** A program that a dispatch loop can run without reading an operand as
    an opcode, an opcode as an operand, or a slot outside the vector:
    opcode slots hold opcodes, operand slots hold indices of opcode slots,
    and the last slot is a [HALT]. *)
Record well_formed {OpCode : Type} (takes_operand : OpCode -> bool)
    (halt : OpCode) (p : list (Instruction OpCode)) : Prop := {
  wf_closed : open_ended takes_operand false p = false;
  wf_opcode : forall b, vget (layout takes_operand false p) b = Some true ->
              exists o, vget p b = Some (I_opcode o);
  wf_operand : forall b, vget (layout takes_operand false p) b = Some false ->
               exists n, vget p b = Some (I_operand n) /\
                         vget (layout takes_operand false p) n = Some true;
  wf_halt : vget p (vsize p - 1) = Some (I_opcode halt)
}.

(** The same while the planter is at work: the operand slots whose index
    is still on the stack hold the dummy, and a resolved operand may point
    just behind the program, where the next opcode will be planted. *)
Record planting {OpCode : Type} (takes_operand : OpCode -> bool)
    (p : list (Instruction OpCode)) (ix : list Z) : Prop := {
  pl_closed : open_ended takes_operand false p = false;
  pl_opcode : forall b, vget (layout takes_operand false p) b = Some true ->
              exists o, vget p b = Some (I_opcode o);
  pl_operand : forall b, vget (layout takes_operand false p) b = Some false ->
               b ∈ ix \/
               exists n, vget p b = Some (I_operand n) /\ 0 <= n <= vsize p /\
                         (n < vsize p ->
                          vget (layout takes_operand false p) n = Some true);
  pl_stack : forall s, s ∈ ix ->
             vget (layout takes_operand false p) s = Some false
}.

(** The eight instruction characters. *)
Definition alphabet : list ascii :=
  ["+"; "-"; "<"; ">"; "["; "]"; "."; ","]%char.

(** A character outside the alphabet, and one that, besides, is not the
    NUL character. *)
Definition outside_alphabet (ch : ascii) : bool :=
  negb (existsb (Ascii.eqb ch) alphabet).

Definition comment_char (ch : ascii) : bool :=
  outside_alphabet ch && negb (ch =? "000")%char.

(** The operands of a loop whose [OPEN] is at slot [o] and whose [CLOSE]
    is at slot [c], in the words of the specification and as the planter
    writes them. *)
Definition spec_loop_operands {OpCode : Type}
    (p : list (Instruction OpCode)) (o c : Z) : Prop :=
  vget p (o + 1) = Some (I_operand (c + 2)) /\
  vget p (c + 1) = Some (I_operand (o + 1)).

Definition loop_operands {OpCode : Type}
    (p : list (Instruction OpCode)) (o c : Z) : Prop :=
  vget p (o + 1) = Some (I_operand (c + 2)) /\
  vget p (c + 1) = Some (I_operand (o + 2)).

(** What a call has written, and a cell of the tape it leaves. *)
Definition written_by {OpCode : Type} (r : Outcome (Ran OpCode)) : option (list Z) :=
  match r with
  | Returned r => Some (written r)
  | _ => None
  end.

Definition cell_after {OpCode : Type} (r : Outcome (Ran OpCode)) (i : Z) : option Z :=
  match r with
  | Returned r => vget (memory (engine r)) i
  | _ => None
  end.

(** What a second call of a run method does on an engine whose program
    is [p1]: the planter appends to [p1], and the dispatch loop runs [p1]
    again, from slot 0, on the memory it finds. *)
Definition reruns_first {OpCode : Type}
    (opcode_map : ascii -> option OpCode) (dummy : Instruction OpCode)
    (step : list (Instruction OpCode) -> Machine -> Step)
    (e1 : Engine OpCode) (src2 : list ascii)
    (in2 : list Z) (fuel2 : nat) : Prop :=
  let p1 := program e1 in
  match CodePlanter.plantProgram opcode_map dummy src2 (CodePlanter.mk p1 []) with
  | Undefined f => run_with opcode_map dummy step e1 src2 in2 fuel2 = Crashed f
  | Ok cp2 =>
      (exists ext, CodePlanter.program cp2 = p1 ++ ext) /\
      run_with opcode_map dummy step e1 src2 in2 fuel2
      = match exec (step p1) fuel2 (mkMachine 0 0 (memory e1) in2 []) with
        | Returned m =>
            Returned (mkRan (mkEngine (CodePlanter.program cp2) (mem m))
                            (outStream m) (cin m))
        | Crashed f => Crashed f
        | Running => Running
        end
  end.

(** A tape of [unsigned char]s. *)
Definition bytes (t : list Z) : Prop := Forall (fun c => 0 <= c < 256) t.

(** The opcode of [Switch.cpp] as the label address that
    [ComputedGotos.cpp] and [main2.cpp] plant for the same character. *)
Definition label_of (op : switch_.OpCode) : computed_gotos.OpCode :=
  computed_gotos.address_of
    match op with
    | switch_.INCR => computed_gotos.INCR
    | switch_.DECR => computed_gotos.DECR
    | switch_.LEFT => computed_gotos.LEFT
    | switch_.RIGHT => computed_gotos.RIGHT
    | switch_.OPEN => computed_gotos.OPEN
    | switch_.CLOSE => computed_gotos.CLOSE
    | switch_.PUT => computed_gotos.PUT
    | switch_.GET => computed_gotos.GET
    | switch_.HALT => computed_gotos.HALT
    end.

Definition map_opcode {O1 O2 : Type} (f : O1 -> O2)
    (i : Instruction O1) : Instruction O2 :=
  match i with
  | I_opcode op => I_opcode (f op)
  | I_operand n => I_operand n
  end.

(** [p2] is [p1] with its opcodes renamed by [f], but for the slots whose
    index is on the stack, where the two dummies are. *)
Definition image {O1 O2 : Type} (f : O1 -> O2) (ix : list Z)
    (p1 : list (Instruction O1)) (p2 : list (Instruction O2)) : Prop :=
  vsize p2 = vsize p1 /\
  forall b, b ∉ ix -> vget p2 b = map_opcode f <$> vget p1 b.

(** What can be seen of a call from outside: how it ended and, if it
    returned, the bytes written, the tape and the input left unread. *)
Definition observe {OpCode : Type} (r : Outcome (Ran OpCode))
    : Outcome (list Z * list Z * list Z) :=
  match r with
  | Returned r => Returned (written r, memory (engine r), unread r)
  | Crashed f => Crashed f
  | Running => Running
  end.

(** The shape of every step of the planter, when no [int] wraps around
    and the stack points into the program. *)
Inductive plant_step {OpCode : Type} (opcode_map : ascii -> option OpCode)
    (dummy : Instruction OpCode) (ch : ascii)
    (p : list (Instruction OpCode)) (ix : list Z)
    : Result (CodePlanter.state OpCode) -> Prop :=
| step_skip :
    opcode_map ch = None ->
    plant_step opcode_map dummy ch p ix (Ok (CodePlanter.mk p ix))
| step_plain op :
    opcode_map ch = Some op -> ch <> "["%char -> ch <> "]"%char ->
    plant_step opcode_map dummy ch p ix
      (Ok (CodePlanter.mk (p ++ [I_opcode op]) ix))
| step_open op :
    ch = "["%char -> opcode_map ch = Some op ->
    plant_step opcode_map dummy ch p ix
      (Ok (CodePlanter.mk (p ++ [I_opcode op; dummy]) (vsize p + 1 :: ix)))
| step_close_empty op :
    ch = "]"%char -> opcode_map ch = Some op -> ix = [] ->
    plant_step opcode_map dummy ch p ix (Undefined EmptyBack)
| step_close op start rest :
    ch = "]"%char -> opcode_map ch = Some op -> ix = start :: rest ->
    0 <= start < vsize p ->
    plant_step opcode_map dummy ch p ix
      (Ok (CodePlanter.mk
             (vset p start (I_operand (vsize p + 2))
                ++ [I_opcode op; I_operand (start + 1)]) rest)).

(** ** Vocabulary of the further properties *)

(** The slots of a program that hold an opcode, in their order, the
    operand slots left out; [skip] as in [layout]. *)
Fixpoint listing {OpCode : Type} (takes_operand : OpCode -> bool)
    (skip : bool) (p : list (Instruction OpCode)) : list (Instruction OpCode) :=
  match p with
  | [] => []
  | i :: p' =>
      if skip then listing takes_operand false p'
      else i :: listing takes_operand (wants_operand takes_operand i) p'
  end.

(** The opcodes of the characters of a text that the map has, in the
    order of the text. *)
Definition instructions {OpCode : Type} (opcode_map : ascii -> option OpCode)
    (src : list ascii) : list (Instruction OpCode) :=
  I_opcode <$> omap opcode_map src.

(** A text without brackets. *)
Definition bracket_free (src : list ascii) : bool :=
  forallb (fun ch => negb ((ch =? "[") || (ch =? "]"))%char) src.

(** A text without brackets and without the two characters that move
    [loc]. *)
Definition no_move_no_bracket (src : list ascii) : bool :=
  forallb (fun ch => negb ((ch =? "[") || (ch =? "]")
                           || (ch =? "<") || (ch =? ">"))%char) src.

(** The labels of the characters that are left. *)
Definition plain_label (l : computed_gotos.Label) : bool :=
  match l with
  | computed_gotos.INCR | computed_gotos.DECR | computed_gotos.PUT
  | computed_gotos.GET | computed_gotos.HALT => true
  | _ => false
  end.

(** The instructions whose label block in [direct_threading_demo.cpp]
    differs from that of the other files: [CLOSE], [LEFT] and [RIGHT]. *)
Definition move_or_close (i : Instruction computed_gotos.OpCode) : bool :=
  match i with
  | I_opcode (computed_gotos.address_of computed_gotos.CLOSE)
  | I_opcode (computed_gotos.address_of computed_gotos.LEFT)
  | I_opcode (computed_gotos.address_of computed_gotos.RIGHT) => true
  | _ => false
  end.

(** Calls of one run method, one after the other, on one engine, one
    [outStream] and one [std::cin]: the body of [TEST( CG_DirectThreadedCode,
    NoChange )] with its three files, and the loop [for (auto _ : state)] of
    the benchmarks, which passes the same file every time. *)
Fixpoint run_files {OpCode : Type}
    (run : Engine OpCode -> list ascii -> list Z -> nat -> Outcome (Ran OpCode))
    (e : Engine OpCode) (files : list (list ascii)) (input : list Z)
    (fuel : nat) : Outcome (Ran OpCode) :=
  match files with
  | [] => Returned (mkRan e [] input)
  | file :: files' =>
      match run e file input fuel with
      | Returned r =>
          match run_files run (engine r) files' (unread r) fuel with
          | Returned r' =>
              Returned (mkRan (engine r') (written r ++ written r') (unread r'))
          | Crashed f => Crashed f
          | Running => Running
          end
      | Crashed f => Crashed f
      | Running => Running
      end
  end.

(** The slots that a list of files takes, each with its [HALT]. *)
Fixpoint slots_of_files {OpCode : Type} (opcode_map : ascii -> option OpCode)
    (files : list (list ascii)) : Z :=
  match files with
  | [] => 0
  | file :: files' =>
      slots opcode_map file + 1 + slots_of_files opcode_map files'
  end.

(** What a dispatch loop can have done between two of its states: the
    tape has kept its length and, if its cells were bytes, they still are;
    bytes have been appended to the output; and characters have been taken
    from the front of the input. *)
Definition evolves (m m' : Machine) : Prop :=
  vsize (mem m') = vsize (mem m) /\
  (bytes (mem m) -> bytes (mem m')) /\
  (exists new, outStream m' = outStream m ++ new /\ (bytes (mem m) -> bytes new)) /\
  (exists used, cin m = used ++ cin m').

(** The dispatch loop run [n] times over on one program [p], from slot 0
    each time, each run on the tape and the input that the run before has
    left; [step] is the step function of the engine, at [p]. *)
Fixpoint reruns (step : Machine -> Step) (n : nat) (tape input : list Z)
    (fuel : nat) : Outcome (list Z * list Z * list Z) :=
  match n with
  | O => Returned ([], tape, input)
  | S n' =>
      match exec step fuel (mkMachine 0 0 tape input []) with
      | Returned m =>
          match reruns step n' (mem m) (cin m) fuel with
          | Returned (w, t, u) => Returned (outStream m ++ w, t, u)
          | Crashed f => Crashed f
          | Running => Running
          end
      | Crashed f => Crashed f
      | Running => Running
      end
  end.

(** Files that the planter takes one after the other, behind a program of
    [size] slots, without an [int] that wraps around and without a close
    bracket that meets an empty stack. *)
Fixpoint plantable {OpCode : Type} (opcode_map : ascii -> option OpCode)
    (size : Z) (files : list (list ascii)) : Prop :=
  match files with
  | [] => True
  | file :: files' =>
      size + 2 * vsize file + 2 < 2 ^ 31 /\
      nesting 0 file <> None /\
      plantable opcode_map (size + slots opcode_map file + 1) files'
  end.

(** * Facts about vectors and [int] *)

Lemma vsize_app {A : Type} (u v : list A) : vsize (u ++ v) = vsize u + vsize v.
Proof. unfold vsize. rewrite length_app. lia. Qed.

Lemma vsize_nonneg {A : Type} (v : list A) : 0 <= vsize v.
Proof. unfold vsize. lia. Qed.

Lemma vsize_cons {A : Type} (x : A) (v : list A) : vsize (x :: v) = 1 + vsize v.
Proof. unfold vsize. simpl length. lia. Qed.

Lemma vsize_vset {A : Type} (v : list A) i x : vsize (vset v i x) = vsize v.
Proof. unfold vsize, vset. by rewrite length_insert. Qed.

Lemma vget_Some_range {A : Type} (v : list A) i x :
  vget v i = Some x -> 0 <= i < vsize v.
Proof.
  unfold vget, vsize. destruct (Z.ltb_spec i 0) as [|Hi]; [done|].
  intros H%lookup_lt_Some. lia.
Qed.

Lemma vget_range_Some {A : Type} (v : list A) i :
  0 <= i < vsize v -> exists x, vget v i = Some x.
Proof.
  unfold vget, vsize. intros [H0 H1].
  destruct (Z.ltb_spec i 0); [lia|].
  apply lookup_lt_is_Some. lia.
Qed.

Lemma vget_None {A : Type} (v : list A) i :
  vget v i = None <-> i < 0 \/ vsize v <= i.
Proof.
  unfold vget, vsize. destruct (Z.ltb_spec i 0) as [|Hi].
  - split; [by left|done].
  - rewrite lookup_ge_None. lia.
Qed.

Lemma vget_app_l {A : Type} (u v : list A) i :
  i < vsize u -> vget (u ++ v) i = vget u i.
Proof.
  unfold vget, vsize. intros H. destruct (Z.ltb_spec i 0); [done|].
  apply lookup_app_l. lia.
Qed.

Lemma vget_app_r {A : Type} (u v : list A) i :
  vsize u <= i -> vget (u ++ v) i = vget v (i - vsize u).
Proof.
  unfold vget, vsize. intros H.
  destruct (Z.ltb_spec i 0); [lia|].
  destruct (Z.ltb_spec (i - Z.of_nat (length u)) 0); [lia|].
  rewrite lookup_app_r by lia. f_equal. lia.
Qed.

Lemma vget_vset_eq {A : Type} (v : list A) i x :
  0 <= i < vsize v -> vget (vset v i x) i = Some x.
Proof.
  unfold vget, vset, vsize. intros [H0 H1].
  destruct (Z.ltb_spec i 0); [lia|].
  apply list_lookup_insert_eq. lia.
Qed.

Lemma vget_vset_ne {A : Type} (v : list A) i j x :
  0 <= i -> i <> j -> vget (vset v i x) j = vget v j.
Proof.
  unfold vget, vset. intros H0 Hne.
  destruct (Z.ltb_spec j 0); [done|].
  apply list_lookup_insert_ne. lia.
Qed.

Lemma vset_app_l {A : Type} (u v : list A) i x :
  0 <= i < vsize u -> vset (u ++ v) i x = vset u i x ++ v.
Proof.
  unfold vset, vsize. intros [H0 H1]. apply insert_app_l. lia.
Qed.

Lemma vget_app_0 {A : Type} (u v : list A) x :
  vget (u ++ x :: v) (vsize u) = Some x.
Proof. rewrite vget_app_r by lia. by rewrite Z.sub_diag. Qed.

Lemma vget_app_1 {A : Type} (u v : list A) x y :
  vget (u ++ x :: y :: v) (vsize u + 1) = Some y.
Proof.
  rewrite vget_app_r by lia.
  by replace (vsize u + 1 - vsize u) with 1 by lia.
Qed.

Lemma vget_lookup {A : Type} (v : list A) i x :
  vget v i = Some x <-> 0 <= i /\ v !! Z.to_nat i = Some x.
Proof.
  unfold vget. destruct (Z.ltb_spec i 0) as [Hi|Hi]; split.
  - done.
  - intros [? _]. lia.
  - intros ?. by split.
  - by intros [_ ?].
Qed.

Lemma vget_one {A : Type} (x z : A) k :
  vget [x] k = Some z -> k = 0 /\ z = x.
Proof.
  intros H. pose proof (vget_Some_range _ _ _ H) as Hr.
  change (vsize [x]) with 1 in Hr. assert (k = 0) as -> by lia.
  split; [done|]. by inversion H.
Qed.

Lemma vget_two {A : Type} (x y z : A) k :
  vget [x; y] k = Some z -> (k = 0 /\ z = x) \/ (k = 1 /\ z = y).
Proof.
  intros H. pose proof (vget_Some_range _ _ _ H) as Hr.
  change (vsize [x; y]) with 2 in Hr.
  assert (k = 0 \/ k = 1) as [-> | ->] by lia; inversion H; auto.
Qed.

Lemma vget_of_nat {A : Type} (v : list A) (i : nat) :
  vget v (Z.of_nat i) = v !! i.
Proof.
  unfold vget. destruct (Z.ltb_spec (Z.of_nat i) 0); [lia|].
  by rewrite Nat2Z.id.
Qed.

(** A vector that agrees with [p] on the slots of [p] starts with [p]. *)
Lemma vget_prefix {A : Type} (p q : list A) :
  vsize p <= vsize q ->
  (forall b, 0 <= b < vsize p -> vget q b = vget p b) ->
  exists ext, q = p ++ ext.
Proof.
  intros Hsz H. exists (drop (length p) q).
  rewrite <- (take_drop (length p) q) at 1. f_equal.
  apply list_eq. intros i. unfold vsize in *.
  destruct (decide (i < length p)%nat) as [Hi|Hi].
  - rewrite lookup_take_lt by done.
    rewrite <- !vget_of_nat. apply H. lia.
  - rewrite lookup_take_ge by lia. symmetry. apply lookup_ge_None. lia.
Qed.

Lemma vget_fmap {A B : Type} (f : A -> B) (v : list A) i :
  vget (f <$> v) i = f <$> vget v i.
Proof. unfold vget. destruct (i <? 0); [done|]. apply list_lookup_fmap. Qed.

Lemma in_range_true {A : Type} (v : list A) i :
  in_range v i = true <-> 0 <= i < vsize v.
Proof. unfold in_range. rewrite andb_true_iff, Z.leb_le, Z.ltb_lt. tauto. Qed.

Lemma short_fits {I : Type} src : short src -> fits (@nil I) src.
Proof. unfold short, fits. by change (vsize []) with 0. Qed.

Lemma to_int_small z : - 2 ^ 31 <= z < 2 ^ 31 -> to_int z = z.
Proof.
  intros H. unfold to_int. rewrite Z.mod_small; lia.
Qed.

Lemma to_num_range z : 0 <= to_num z < 256.
Proof. unfold to_num. apply Z.mod_pos_bound. lia. Qed.

Lemma to_num_small z : 0 <= z < 256 -> to_num z = z.
Proof. unfold to_num. apply Z.mod_small. Qed.

(** * The layout of a program *)

Section LayoutFacts.
Context {OpCode : Type}.
Variable takes_operand : OpCode -> bool.

Local Abbreviation layout := (layout takes_operand).
Local Abbreviation open_ended := (open_ended takes_operand).
Local Abbreviation wants_operand := (wants_operand takes_operand).

Lemma layout_app p q : forall skip,
  layout skip (p ++ q) = layout skip p ++ layout (open_ended skip p) q.
Proof.
  induction p as [|i p IH]; intros skip; simpl; [done|].
  destruct skip; by rewrite IH.
Qed.

Lemma open_ended_app p q : forall skip,
  open_ended skip (p ++ q) = open_ended (open_ended skip p) q.
Proof.
  induction p as [|i p IH]; intros skip; simpl; [done|].
  destruct skip; by rewrite IH.
Qed.

Lemma length_layout p : forall skip, length (layout skip p) = length p.
Proof.
  induction p as [|i p IH]; intros skip; simpl; [done|].
  destruct skip; simpl; by rewrite IH.
Qed.

Lemma vsize_layout skip p : vsize (layout skip p) = vsize p.
Proof. unfold vsize. by rewrite length_layout. Qed.

(** Writing into an operand slot changes no layout. *)
Lemma layout_insert p x : forall skip (k : nat),
  layout skip p !! k = Some false ->
  layout skip (<[k := x]> p) = layout skip p /\
  open_ended skip (<[k := x]> p) = open_ended skip p.
Proof.
  induction p as [|i p IH]; intros skip k Hk; [done|].
  destruct k as [|k]; destruct skip; simpl in *; try done.
  - destruct (IH false k Hk) as [-> ->]. done.
  - destruct (IH _ k Hk) as [-> ->]. done.
Qed.

Lemma layout_vset skip p s x :
  vget (layout skip p) s = Some false ->
  layout skip (vset p s x) = layout skip p /\
  open_ended skip (vset p s x) = open_ended skip p.
Proof. intros [_ H]%vget_lookup. by apply layout_insert. Qed.

(** The slot after an operand holds an opcode. *)
Lemma layout_after_operand_nat p : forall skip (k : nat),
  layout skip p !! k = Some false -> (S k < length p)%nat ->
  layout skip p !! S k = Some true.
Proof.
  induction p as [|i p IH]; intros skip k Hk Hlen; [done|].
  destruct k as [|k]; destruct skip; simpl in *; try done.
  - destruct p; simpl in *; [lia|done].
  - apply IH; [done|lia].
  - apply IH; [done|lia].
Qed.

Lemma layout_after_operand skip p s :
  vget (layout skip p) s = Some false -> s + 1 < vsize p ->
  vget (layout skip p) (s + 1) = Some true.
Proof.
  intros [H0 H]%vget_lookup Hlen. apply vget_lookup. split; [lia|].
  replace (Z.to_nat (s + 1)) with (S (Z.to_nat s)) by lia.
  apply layout_after_operand_nat; [done|]. unfold vsize in Hlen. lia.
Qed.

(** The slot after an opcode holds its operand, if it takes one, and
    the next opcode otherwise. *)
Lemma layout_after_opcode_nat p : forall skip (k : nat) i,
  layout skip p !! k = Some true -> p !! k = Some i ->
  (S k < length p)%nat ->
  layout skip p !! S k = Some (negb (wants_operand i)).
Proof.
  induction p as [|i0 p IH]; intros skip k i Hk Hi Hlen; [done|].
  destruct k as [|k]; destruct skip; simpl in *; try done.
  - inversion Hi; subst. destruct p; simpl in *; [lia|].
    by destruct (wants_operand i).
  - apply IH; [done|done|lia].
  - apply IH; [done|done|lia].
Qed.

Lemma layout_after_opcode skip p b o :
  vget (layout skip p) b = Some true -> vget p b = Some (I_opcode o) ->
  b + 1 < vsize p ->
  vget (layout skip p) (b + 1) = Some (negb (takes_operand o)).
Proof.
  intros [H0 H]%vget_lookup [_ Hi]%vget_lookup Hlen.
  apply vget_lookup. split; [lia|].
  replace (Z.to_nat (b + 1)) with (S (Z.to_nat b)) by lia.
  apply (layout_after_opcode_nat p skip _ (I_opcode o)); [done|done|].
  unfold vsize in Hlen. lia.
Qed.

Lemma layout_head p :
  p <> [] -> vget (layout false p) 0 = Some true.
Proof. by destruct p. Qed.

(** In a well-formed program the slots that hold an operand are the
    operand slots, and what they hold is the index of an opcode slot. *)
Lemma well_formed_operand halt p b n :
  well_formed takes_operand halt p ->
  vget p b = Some (I_operand n) ->
  vget (layout false p) n = Some true /\ 0 <= n < vsize p.
Proof.
  intros [Hc Hopc Hopd Hhalt] Hb.
  pose proof (vget_Some_range _ _ _ Hb) as Hr.
  rewrite <- (vsize_layout false p) in Hr.
  destruct (vget_range_Some _ _ Hr) as [[] Hk].
  - destruct (Hopc _ Hk) as [o Ho]. congruence.
  - destruct (Hopd _ Hk) as (n' & Hn' & Hkn).
    assert (n' = n) as -> by congruence.
    split; [done|]. apply vget_Some_range in Hkn.
    by rewrite vsize_layout in Hkn.
Qed.

End LayoutFacts.

(** * The planter *)

Section PlanterFacts.
Context {OpCode : Type}.
Variable opcode_map : ascii -> option OpCode.
Variable dummy : Instruction OpCode.

Local Abbreviation state := (CodePlanter.state OpCode).
Local Abbreviation mk := CodePlanter.mk.
Local Abbreviation plantChar := (CodePlanter.plantChar opcode_map dummy).
Local Abbreviation plantChars := (CodePlanter.plantChars opcode_map dummy).
Local Abbreviation plantProgram := (CodePlanter.plantProgram opcode_map dummy).
Local Abbreviation width := (width opcode_map).
Local Abbreviation slots := (slots opcode_map).

(** What [plantChar] does, case by case, once no [int] wraps. *)

Lemma plantChar_skip ch cp :
  opcode_map ch = None -> plantChar ch cp = Ok cp.
Proof. intros H. unfold CodePlanter.plantChar. by rewrite H. Qed.

Lemma plantChar_plain ch op p ix :
  opcode_map ch = Some op -> ch <> "["%char -> ch <> "]"%char ->
  plantChar ch (mk p ix) = Ok (mk (p ++ [I_opcode op]) ix).
Proof.
  intros H Ho Hc. unfold CodePlanter.plantChar. rewrite H.
  apply Ascii.eqb_neq in Ho, Hc. by rewrite Ho, Hc.
Qed.

Lemma plantChar_open op p ix :
  opcode_map "["%char = Some op -> vsize p + 2 < 2 ^ 31 ->
  plantChar "["%char (mk p ix)
  = Ok (mk (p ++ [I_opcode op; dummy]) (vsize p + 1 :: ix)).
Proof.
  intros H Hs. unfold CodePlanter.plantChar. rewrite H. simpl.
  rewrite vsize_app, vsize_cons. change (vsize []) with 0.
  pose proof (vsize_nonneg p).
  rewrite to_int_small by lia. rewrite <- app_assoc. simpl.
  by rewrite Z.add_0_r.
Qed.

Lemma plantChar_close_empty op p :
  opcode_map "]"%char = Some op ->
  plantChar "]"%char (mk p []) = Undefined EmptyBack.
Proof. intros H. unfold CodePlanter.plantChar. by rewrite H. Qed.

Lemma plantChar_close op p start rest :
  opcode_map "]"%char = Some op -> vsize p + 2 < 2 ^ 31 ->
  0 <= start < vsize p ->
  plantChar "]"%char (mk p (start :: rest))
  = Ok (mk (vset p start (I_operand (vsize p + 2))
              ++ [I_opcode op; I_operand (start + 1)]) rest).
Proof.
  intros H Hs Hr. unfold CodePlanter.plantChar. rewrite H. simpl.
  pose proof (vsize_nonneg p).
  assert (Hin : in_range (p ++ [I_opcode op]) start = true).
  { apply in_range_true. rewrite vsize_app, vsize_cons.
    change (vsize []) with 0. lia. }
  rewrite Hin. rewrite vsize_app, vsize_cons. change (vsize []) with 0.
  rewrite (to_int_small (vsize p + (1 + 0))) by lia.
  rewrite !to_int_small by lia.
  rewrite vset_app_l by lia. rewrite <- app_assoc. simpl.
  rewrite Z.add_0_r. by replace (vsize p + 1 + 1) with (vsize p + 2) by lia.
Qed.

Lemma plantChars_app s1 s2 cp :
  plantChars (s1 ++ s2) cp
  = match plantChars s1 cp with
    | Ok cp' => plantChars s2 cp'
    | Undefined f => Undefined f
    end.
Proof.
  revert cp. induction s1 as [|ch s1 IH]; intros cp; simpl; [done|].
  destruct (plantChar ch cp); [apply IH|done].
Qed.

Lemma stack_ok_cons {I : Type} (p : list I) s ix :
  stack_ok p (s :: ix) <-> 0 <= s < vsize p /\ stack_ok p ix.
Proof.
  unfold stack_ok. split.
  - intros H. by inversion H.
  - intros [? ?]. by constructor.
Qed.

Lemma stack_ok_nil {I : Type} (p : list I) : stack_ok p [].
Proof. constructor. Qed.

Lemma stack_ok_vset {I : Type} (p : list I) i x ix :
  stack_ok p ix -> stack_ok (vset p i x) ix.
Proof. unfold stack_ok. by rewrite vsize_vset. Qed.

Lemma plantChar_step ch p ix :
  vsize p + 2 < 2 ^ 31 -> stack_ok p ix ->
  plant_step opcode_map dummy ch p ix (plantChar ch (mk p ix)).
Proof.
  intros Hs Hok.
  destruct (opcode_map ch) as [op|] eqn:Hm.
  2:{ rewrite plantChar_skip by done. by constructor. }
  destruct (Ascii.eqb_spec ch "["%char) as [->|Ho].
  { rewrite (plantChar_open op) by done. by econstructor. }
  destruct (Ascii.eqb_spec ch "]"%char) as [->|Hc].
  2:{ rewrite (plantChar_plain ch op) by done. by econstructor. }
  destruct ix as [|start rest].
  { rewrite (plantChar_close_empty op) by done. by econstructor. }
  apply stack_ok_cons in Hok as [Hstart _].
  rewrite (plantChar_close op) by done. by econstructor.
Qed.

Lemma width_range ch : 0 <= width ch <= 2.
Proof.
  unfold width. destruct (opcode_map ch); [|lia].
  destruct (_ || _); lia.
Qed.

Lemma slots_range src : 0 <= slots src <= 2 * vsize src.
Proof.
  induction src as [|ch src IH]; simpl; [unfold vsize; simpl; lia|].
  pose proof (width_range ch). rewrite vsize_cons. lia.
Qed.

Lemma slots_app s1 s2 : slots (s1 ++ s2) = slots s1 + slots s2.
Proof. induction s1 as [|ch s1 IH]; simpl; lia. Qed.

Lemma width_skip ch : opcode_map ch = None -> width ch = 0.
Proof. unfold width. by intros ->. Qed.

Lemma width_plain ch op :
  opcode_map ch = Some op -> ch <> "["%char -> ch <> "]"%char -> width ch = 1.
Proof.
  unfold width. intros -> Ho%Ascii.eqb_neq Hc%Ascii.eqb_neq.
  by rewrite Ho, Hc.
Qed.

Lemma width_open op : opcode_map "["%char = Some op -> width "["%char = 2.
Proof. unfold width. by intros ->. Qed.

Lemma width_close op : opcode_map "]"%char = Some op -> width "]"%char = 2.
Proof. unfold width. by intros ->. Qed.

Lemma stack_ok_app {I : Type} (p q : list I) ix :
  stack_ok p ix -> stack_ok (p ++ q) ix.
Proof.
  unfold stack_ok. apply Forall_impl. intros s Hs.
  rewrite vsize_app. pose proof (vsize_nonneg q). lia.
Qed.

Lemma fits_step {I : Type} (p p' : list I) ch src :
  fits p (ch :: src) -> vsize p' <= vsize p + 2 -> fits p' src.
Proof. unfold fits. rewrite vsize_cons. lia. Qed.

Lemma fits_head {I : Type} (p : list I) ch src :
  fits p (ch :: src) -> vsize p + 2 < 2 ^ 31.
Proof. unfold fits. rewrite vsize_cons. pose proof (vsize_nonneg src). lia. Qed.

(** A step that succeeds keeps the stack inside the program, and the
    program grows by the width of the character. *)
Lemma plantChar_ok ch p ix cp' :
  vsize p + 2 < 2 ^ 31 -> stack_ok p ix ->
  plantChar ch (mk p ix) = Ok cp' ->
  stack_ok (CodePlanter.program cp') (CodePlanter.indexes cp') /\
  vsize (CodePlanter.program cp') = vsize p + width ch.
Proof.
  intros Hs Hok Heq. pose proof (plantChar_step ch p ix Hs Hok) as St.
  rewrite Heq in St. inversion St; subst; simpl.
  - split; [done|]. rewrite width_skip by done. lia.
  - split; [by apply stack_ok_app|].
    rewrite vsize_app, (width_plain ch op) by done. done.
  - split.
    + apply stack_ok_cons. split; [|by apply stack_ok_app].
      rewrite vsize_app. pose proof (vsize_nonneg p).
      change (vsize [I_opcode op; dummy]) with 2. lia.
    + rewrite vsize_app, (width_open op) by done. done.
  - split.
    + apply stack_ok_app, stack_ok_vset.
      by apply stack_ok_cons in Hok as [_ Hok].
    + rewrite vsize_app, vsize_vset, (width_close op) by done. done.
Qed.

Lemma plantChars_ok src : forall p ix cp',
  fits p src -> stack_ok p ix ->
  plantChars src (mk p ix) = Ok cp' ->
  stack_ok (CodePlanter.program cp') (CodePlanter.indexes cp') /\
  vsize (CodePlanter.program cp') = vsize p + slots src.
Proof.
  induction src as [|ch src IH]; intros p ix cp' Hf Hok Heq; simpl in *.
  { inversion Heq; subst; simpl. split; [done|lia]. }
  destruct (plantChar ch (mk p ix)) as [[p1 ix1]|] eqn:Hc; [|done].
  destruct (plantChar_ok ch p ix _ (fits_head _ _ _ Hf) Hok Hc) as [Hok1 Hsz1].
  simpl in *. pose proof (width_range ch).
  destruct (IH p1 ix1 cp') as [Hok' Hsz']; [|done|done|].
  { eapply fits_step; [done|lia]. }
  split; [done|lia].
Qed.

(** An index stays on the stack for as long as its slot holds the dummy. *)
Lemma unresolved_step ch p ix cp' :
  vsize p + 2 < 2 ^ 31 -> unresolved dummy p ix ->
  plantChar ch (mk p ix) = Ok cp' ->
  unresolved dummy (CodePlanter.program cp') (CodePlanter.indexes cp').
Proof.
  intros Hs (Hnd & Hok & Hd) Heq.
  destruct (plantChar_ok ch p ix cp' Hs Hok Heq) as [Hok' _].
  pose proof (plantChar_step ch p ix Hs Hok) as St. rewrite Heq in St.
  assert (Hin : forall s, s ∈ ix -> 0 <= s < vsize p).
  { intros s Hin. unfold stack_ok in Hok. rewrite Forall_forall in Hok.
    by apply Hok, list_elem_of_In. }
  inversion St; subst; simpl in *; (split; [|split; [done|]]).
  - done.
  - done.
  - done.
  - intros s Hi. rewrite vget_app_l by (apply Hin in Hi; lia). auto.
  - apply NoDup_cons_2; [|done]. intros Hi%Hin. lia.
  - intros s [->|Hi]%elem_of_cons.
    + apply vget_app_1.
    + rewrite vget_app_l by (apply Hin in Hi; lia). auto.
  - by apply NoDup_cons_1_2 in Hnd.
  - intros s Hi. apply NoDup_cons_1_1 in Hnd as Hni.
    pose proof (Hin s (list_elem_of_further _ _ _ Hi)).
    rewrite vget_app_l by (rewrite vsize_vset; lia).
    rewrite vget_vset_ne; [|lia|by intros ->].
    by apply Hd, list_elem_of_further.
Qed.

Lemma plantChars_unresolved src : forall p ix cp',
  fits p src -> unresolved dummy p ix ->
  plantChars src (mk p ix) = Ok cp' ->
  unresolved dummy (CodePlanter.program cp') (CodePlanter.indexes cp').
Proof.
  induction src as [|ch src IH]; intros p ix cp' Hf Hu Heq; simpl in Heq.
  { by inversion Heq. }
  pose proof (fits_head _ _ _ Hf) as Hs.
  destruct (plantChar ch (mk p ix)) as [[p1 ix1]|f] eqn:Hc; [|done].
  pose proof (unresolved_step ch p ix _ Hs Hu Hc) as Hu1.
  destruct Hu as (_ & Hok & _).
  destruct (plantChar_ok ch p ix _ Hs Hok Hc) as [_ Hsz].
  simpl in Hu1, Hsz. pose proof (width_range ch).
  apply (IH p1 ix1); [eapply fits_step; [done|lia]|done|done].
Qed.

(** *** Brackets *)

Variables op_open op_close : OpCode.
Hypothesis map_open : opcode_map "["%char = Some op_open.
Hypothesis map_close : opcode_map "]"%char = Some op_close.

Lemma nesting_other d ch src :
  ch <> "["%char -> ch <> "]"%char -> nesting d (ch :: src) = nesting d src.
Proof. intros Ho%Ascii.eqb_neq Hc%Ascii.eqb_neq. simpl. by rewrite Ho, Hc. Qed.

Lemma skipped_not_bracket ch :
  opcode_map ch = None -> ch <> "["%char /\ ch <> "]"%char.
Proof. intros H. split; intros ->; congruence. Qed.

(** A close bracket at depth 0 stops the planter in [indexes.back()]. *)
Lemma plantChars_underflow src : forall p ix,
  fits p src -> stack_ok p ix ->
  nesting (length ix) src = None ->
  plantChars src (mk p ix) = Undefined EmptyBack.
Proof.
  induction src as [|ch src IH]; intros p ix Hf Hok Hn; [done|].
  pose proof (fits_head _ _ _ Hf) as Hs.
  pose proof (plantChar_step ch p ix Hs Hok) as St.
  pose proof (plantChar_ok ch p ix) as Hstep.
  simpl plantChars.
  destruct (plantChar ch (mk p ix)) as [[p1 ix1]|f] eqn:Hc.
  2:{ by inversion St. }
  destruct (Hstep _ Hs Hok eq_refl) as [Hok1 Hsz1]. simpl in Hok1, Hsz1.
  pose proof (width_range ch).
  apply IH; [eapply fits_step; [done|lia]|done|].
  inversion St; subst.
  - destruct (skipped_not_bracket ch) as [? ?]; [done|].
    by rewrite nesting_other in Hn.
  - by rewrite nesting_other in Hn.
  - done.
  - done.
Qed.

(** A stretch of text whose close brackets stay above the depth it
    starts from works on the top [e] of the stack only, and leaves alone
    the program below the lowest index [lo] it finds there. *)
Lemma plantChars_segment (base : list Z) (lo : Z) src : forall p e d',
  fits p src -> stack_ok p (e ++ base) ->
  Forall (fun s => lo <= s) e -> lo <= vsize p ->
  nesting (length e) src = Some d' ->
  exists p' e',
    plantChars src (mk p (e ++ base)) = Ok (mk p' (e' ++ base)) /\
    length e' = d' /\
    Forall (fun s => lo <= s) e' /\
    forall b, b < lo -> vget p' b = vget p b.
Proof.
  induction src as [|ch src IH]; intros p e d' Hf Hok He Hlo Hn.
  { simpl in *. exists p, e. by inversion Hn. }
  pose proof (fits_head _ _ _ Hf) as Hs.
  pose proof (plantChar_step ch p _ Hs Hok) as St.
  pose proof (plantChar_ok ch p (e ++ base)) as Hstep.
  simpl plantChars.
  destruct (plantChar ch (mk p (e ++ base))) as [[p1 ix1]|f] eqn:Hc.
  2:{ inversion St; subst. destruct e; [|done]. done. }
  destruct (Hstep _ Hs Hok eq_refl) as [Hok1 Hsz1]. simpl in Hok1, Hsz1.
  pose proof (width_range ch).
  assert (Hf1 : fits p1 src) by (eapply fits_step; [done|lia]).
  assert (Hlo1 : lo <= vsize p1) by lia.
  inversion St; subst.
  - destruct (skipped_not_bracket ch) as [? ?]; [done|].
    rewrite nesting_other in Hn by done.
    apply IH; done.
  - rewrite nesting_other in Hn by done.
    destruct (IH _ e d' Hf1 Hok1 He Hlo1 Hn) as (p' & e' & Hp & Hl & He' & Hfr).
    exists p', e'. repeat split; try done.
    intros b Hb. rewrite Hfr by done. apply vget_app_l. lia.
  - destruct (IH (p ++ [I_opcode op; dummy]) (vsize p + 1 :: e) d')
      as (p' & e' & Hp & Hl & He' & Hfr); try done.
    { constructor; [lia|done]. }
    exists p', e'. repeat split; try done.
    intros b Hb. rewrite Hfr by done. apply vget_app_l. lia.
  - destruct e as [|s e2]; [done|].
    simpl in *. match goal with E : _ :: _ = _ :: _ |- _ => inversion E; subst end.
    apply Forall_cons_1 in He as [Hs0 He2].
    destruct (IH _ e2 d' Hf1 Hok1 He2 Hlo1 Hn) as (p' & e' & Hp & Hl & He' & Hfr).
    exists p', e'. repeat split; try done.
    intros b Hb. rewrite Hfr by done.
    rewrite vget_app_l by (rewrite vsize_vset; lia).
    apply vget_vset_ne; lia.
Qed.

(** Whatever the text, a slot that is not on the stack keeps its
    contents. *)
Lemma plantChars_frame src : forall p ix cp',
  fits p src -> stack_ok p ix ->
  plantChars src (mk p ix) = Ok cp' ->
  forall b, 0 <= b < vsize p -> b ∉ ix ->
  vget (CodePlanter.program cp') b = vget p b.
Proof.
  induction src as [|ch src IH]; intros p ix cp' Hf Hok Heq b Hb Hni.
  { simpl in Heq. by inversion Heq. }
  pose proof (fits_head _ _ _ Hf) as Hs.
  pose proof (plantChar_step ch p _ Hs Hok) as St.
  pose proof (plantChar_ok ch p ix) as Hstep.
  simpl in Heq.
  destruct (plantChar ch (mk p ix)) as [[p1 ix1]|f] eqn:Hc; [|done].
  destruct (Hstep _ Hs Hok eq_refl) as [Hok1 Hsz1]. simpl in Hok1, Hsz1.
  pose proof (width_range ch).
  assert (Hf1 : fits p1 src) by (eapply fits_step; [done|lia]).
  assert (Hb1 : 0 <= b < vsize p1) by lia.
  inversion St; subst.
  - by apply (IH _ _ _ Hf1 Hok1 Heq).
  - rewrite (IH _ _ _ Hf1 Hok1 Heq) by done. apply vget_app_l. lia.
  - rewrite (IH _ _ _ Hf1 Hok1 Heq); [apply vget_app_l; lia|done|].
    rewrite not_elem_of_cons. split; [lia|done].
  - apply not_elem_of_cons in Hni as [Hne Hni].
    rewrite (IH _ _ _ Hf1 Hok1 Heq) by done.
    rewrite vget_app_l by (rewrite vsize_vset; lia).
    apply vget_vset_ne; lia.
Qed.

(** The two operands of a loop.  A loop is an open bracket, a balanced
    body and a close bracket; [o] and [c] are the slots of its [OPEN]
    and of its [CLOSE]. *)
Lemma plantChars_loop p0 pre body post cp :
  fits p0 (pre ++ "["%char :: body ++ "]"%char :: post) ->
  balanced body ->
  plantChars (pre ++ "["%char :: body ++ "]"%char :: post) (mk p0 []) = Ok cp ->
  let o := vsize p0 + slots pre in
  let c := o + 2 + slots body in
  vget (CodePlanter.program cp) o = Some (I_opcode op_open) /\
  vget (CodePlanter.program cp) (o + 1) = Some (I_operand (c + 2)) /\
  vget (CodePlanter.program cp) c = Some (I_opcode op_close) /\
  vget (CodePlanter.program cp) (c + 1) = Some (I_operand (o + 2)).
Proof.
  intros Hf Hbal Heq o c.
  unfold fits in Hf. rewrite vsize_app, vsize_cons, vsize_app, vsize_cons in Hf.
  pose proof (slots_range pre). pose proof (slots_range body).
  pose proof (vsize_nonneg p0). pose proof (vsize_nonneg post).
  pose proof (vsize_nonneg pre). pose proof (vsize_nonneg body).
  rewrite plantChars_app in Heq.
  destruct (plantChars pre (mk p0 [])) as [[p1 ix1]|] eqn:Hpre; [|done].
  destruct (plantChars_ok pre p0 [] (mk p1 ix1)) as [Hok1 Hsz1];
    [unfold fits; lia|apply stack_ok_nil|done|]. simpl in Hok1, Hsz1.
  simpl plantChars in Heq.
  rewrite (plantChar_open op_open) in Heq by (done || lia).
  rewrite plantChars_app in Heq.
  set (p2 := p1 ++ [I_opcode op_open; dummy]) in *.
  assert (Hsz2 : vsize p2 = o + 2).
  { unfold p2. rewrite vsize_app. change (vsize [_; _]) with 2. lia. }
  assert (Hok2 : stack_ok p2 (vsize p1 + 1 :: ix1)).
  { apply stack_ok_cons. split; [lia|by apply stack_ok_app]. }
  destruct (plantChars_segment (vsize p1 + 1 :: ix1) (o + 2) body p2 [] 0%nat)
    as (p3 & e' & Hbody & He' & _ & Hfr3); try done.
  { unfold fits. lia. }
  { lia. }
  destruct e' as [|]; [|done]. simpl app in Hbody.
  destruct (plantChars_ok body p2 _ _ ltac:(unfold fits; lia) Hok2 Hbody)
    as [Hok3 Hsz3]. simpl in Hok3, Hsz3.
  simpl app in Heq. rewrite Hbody in Heq.
  simpl plantChars in Heq.
  rewrite (plantChar_close op_close) in Heq by (done || lia).
  set (p4 := vset p3 (vsize p1 + 1) (I_operand (vsize p3 + 2))
               ++ [I_opcode op_close; I_operand (vsize p1 + 1 + 1)]) in *.
  assert (Hsz4 : vsize p4 = c + 2).
  { unfold p4. rewrite vsize_app, vsize_vset. change (vsize [_; _]) with 2. lia. }
  assert (Hok4 : stack_ok p4 ix1).
  { unfold p4. apply stack_ok_app, stack_ok_vset.
    by apply stack_ok_cons in Hok3 as [_ ?]. }
  assert (Hfr : forall b, o <= b < c + 2 ->
            vget (CodePlanter.program cp) b = vget p4 b).
  { intros b Hb. apply (plantChars_frame post p4 ix1); try done.
    - unfold fits. lia.
    - lia.
    - intros Hin. unfold stack_ok in Hok1.
      rewrite Forall_forall in Hok1.
      apply list_elem_of_In, Hok1 in Hin. lia. }
  rewrite !Hfr by lia. unfold p4. repeat split.
  - rewrite vget_app_l by (rewrite vsize_vset; lia).
    rewrite vget_vset_ne by lia. rewrite Hfr3 by lia.
    unfold p2. replace o with (vsize p1) by lia. apply vget_app_0.
  - rewrite vget_app_l by (rewrite vsize_vset; lia).
    replace (o + 1) with (vsize p1 + 1) by lia.
    rewrite vget_vset_eq by lia. do 2 f_equal. lia.
  - replace c with (vsize (vset p3 (vsize p1 + 1) (I_operand (vsize p3 + 2))))
      by (rewrite vsize_vset; lia).
    apply vget_app_0.
  - replace (c + 1)
      with (vsize (vset p3 (vsize p1 + 1) (I_operand (vsize p3 + 2))) + 1)
      by (rewrite vsize_vset; lia).
    rewrite vget_app_1. do 2 f_equal. lia.
Qed.

(** *** The layout of what is planted *)

Variable takes_operand : OpCode -> bool.
Hypothesis map_kind : forall ch op,
  opcode_map ch = Some op ->
  takes_operand op = ((ch =? "[") || (ch =? "]"))%char.

Local Abbreviation kinds := (layout takes_operand false).
Local Abbreviation planting := (planting takes_operand).

Lemma takes_plain ch op :
  opcode_map ch = Some op -> ch <> "["%char -> ch <> "]"%char ->
  takes_operand op = false.
Proof.
  intros H Ho%Ascii.eqb_neq Hc%Ascii.eqb_neq.
  rewrite (map_kind ch op) by done. by rewrite Ho, Hc.
Qed.

Lemma planting_stack_ok p ix : planting p ix -> stack_ok p ix.
Proof.
  intros Hp. unfold stack_ok. apply Forall_forall. intros s Hs%list_elem_of_In.
  apply (pl_stack _ _ _ Hp), vget_Some_range in Hs.
  by rewrite vsize_layout in Hs.
Qed.

Lemma planting_nil : planting [] [].
Proof.
  split.
  - done.
  - intros b Hb%vget_Some_range. simpl in Hb. change (vsize []) with 0 in Hb. lia.
  - intros b Hb%vget_Some_range. simpl in Hb. change (vsize []) with 0 in Hb. lia.
  - intros s Hs. by apply elem_of_nil in Hs.
Qed.

(** The layout after a plain opcode, and after an opcode and its
    operand, have been appended to a closed program. *)
Lemma kinds_plain p op :
  open_ended takes_operand false p = false -> takes_operand op = false ->
  kinds (p ++ [I_opcode op]) = kinds p ++ [true] /\
  open_ended takes_operand false (p ++ [I_opcode op]) = false.
Proof.
  intros Hc Ht. rewrite layout_app, open_ended_app, Hc. simpl. by rewrite Ht.
Qed.

Lemma kinds_pair p op x :
  open_ended takes_operand false p = false -> takes_operand op = true ->
  kinds (p ++ [I_opcode op; x]) = kinds p ++ [true; false] /\
  open_ended takes_operand false (p ++ [I_opcode op; x]) = false.
Proof.
  intros Hc Ht. rewrite layout_app, open_ended_app, Hc. simpl. by rewrite Ht.
Qed.

(** A resolved operand stays resolved when the program grows by whole
    instructions, the first new slot being an opcode slot. *)
Lemma resolved_grows p q ext n :
  0 <= n <= vsize p ->
  (n < vsize p -> vget (kinds p) n = Some true) ->
  vsize p + 1 <= vsize q ->
  kinds q = kinds p ++ true :: ext ->
  0 <= n <= vsize q /\ (n < vsize q -> vget (kinds q) n = Some true).
Proof.
  intros Hn Hk Hq HL. split; [lia|]. intros _. rewrite HL.
  destruct (Z.lt_ge_cases n (vsize p)) as [Hlt|Hge].
  - rewrite vget_app_l by (by rewrite vsize_layout). auto.
  - assert (n = vsize (kinds p)) as -> by (rewrite vsize_layout; lia).
    apply vget_app_0.
Qed.

Lemma planting_step ch p ix cp' :
  vsize p + 2 < 2 ^ 31 -> planting p ix ->
  plantChar ch (mk p ix) = Ok cp' ->
  planting (CodePlanter.program cp') (CodePlanter.indexes cp').
Proof.
  intros Hs Hp Heq.
  pose proof (plantChar_step ch p ix Hs (planting_stack_ok _ _ Hp)) as St.
  rewrite Heq in St. destruct Hp as [Hc Hopc Hopd Hst].
  pose proof (vsize_nonneg p) as Hp0.
  inversion St; subst; simpl.
  - (* a character that is skipped *)
    by split.
  - (* a plain opcode *)
    assert (Ht : takes_operand op = false) by (by eapply takes_plain).
    destruct (kinds_plain p op Hc Ht) as [HL HE].
    split; [done| | |].
    + intros b Hb. rewrite HL in Hb.
      destruct (Z.lt_ge_cases b (vsize p)) as [Hlt|Hge].
      * rewrite vget_app_l in Hb by (by rewrite vsize_layout).
        rewrite vget_app_l by done. auto.
      * rewrite vget_app_r in Hb by (rewrite vsize_layout; lia).
        apply vget_one in Hb as [Hb _]. rewrite vsize_layout in Hb.
        exists op. replace b with (vsize p) by lia. apply vget_app_0.
    + intros b Hb. rewrite HL in Hb.
      destruct (Z.lt_ge_cases b (vsize p)) as [Hlt|Hge].
      2:{ rewrite vget_app_r in Hb by (rewrite vsize_layout; lia).
          by apply vget_one in Hb as [_ ?]. }
      rewrite vget_app_l in Hb by (by rewrite vsize_layout).
      destruct (Hopd b Hb) as [Hin|(n & Hn & Hr & Hk)]; [by left|right].
      exists n. rewrite vget_app_l by done. split; [done|].
      apply (resolved_grows p _ []); try done.
      rewrite vsize_app. change (vsize [_]) with 1. lia.
    + intros s Hin. rewrite HL. rewrite vget_app_l; [auto|].
      apply Hst, vget_Some_range in Hin. lia.
  - (* an open bracket *)
    assert (Ht : takes_operand op = true) by (by rewrite (map_kind "["%char op)).
    destruct (kinds_pair p op dummy Hc Ht) as [HL HE].
    split; [done| | |].
    + intros b Hb. rewrite HL in Hb.
      destruct (Z.lt_ge_cases b (vsize p)) as [Hlt|Hge].
      * rewrite vget_app_l in Hb by (by rewrite vsize_layout).
        rewrite vget_app_l by done. auto.
      * rewrite vget_app_r in Hb by (rewrite vsize_layout; lia).
        apply vget_two in Hb as [[Hb _]|[_ ?]]; [|done].
        rewrite vsize_layout in Hb.
        exists op. replace b with (vsize p) by lia. apply vget_app_0.
    + intros b Hb. rewrite HL in Hb.
      destruct (Z.lt_ge_cases b (vsize p)) as [Hlt|Hge].
      2:{ rewrite vget_app_r in Hb by (rewrite vsize_layout; lia).
          apply vget_two in Hb as [[_ ?]|[Hb _]]; [done|].
          rewrite vsize_layout in Hb. left.
          replace b with (vsize p + 1) by lia. apply list_elem_of_here. }
      rewrite vget_app_l in Hb by (by rewrite vsize_layout).
      destruct (Hopd b Hb) as [Hin|(n & Hn & Hr & Hk)].
      { left. by apply list_elem_of_further. }
      right. exists n. rewrite vget_app_l by done. split; [done|].
      apply (resolved_grows p _ [false]); try done.
      rewrite vsize_app. change (vsize [_; _]) with 2. lia.
    + intros s [->|Hin]%elem_of_cons; rewrite HL.
      * replace (vsize p + 1) with (vsize (kinds p) + 1)
          by (by rewrite vsize_layout).
        apply vget_app_1.
      * rewrite vget_app_l; [auto|].
        apply Hst, vget_Some_range in Hin. lia.
  - (* a close bracket *)
    assert (Ht : takes_operand op = true) by (by rewrite (map_kind "]"%char op)).
    assert (Hstart : vget (kinds p) start = Some false)
      by apply Hst, list_elem_of_here.
    set (x := I_operand (vsize p + 2)) in *.
    destruct (layout_vset takes_operand false p start x Hstart) as [HL0 HE0].
    destruct (kinds_pair (vset p start x) op (I_operand (start + 1)))
      as [HL HE]; [congruence|done|].
    rewrite HL0 in HL.
    assert (Hsz : vsize (vset p start x ++ [I_opcode op; I_operand (start + 1)])
                  = vsize p + 2).
    { rewrite vsize_app, vsize_vset. by change (vsize [_; _]) with 2. }
    split; [done| | |].
    + intros b Hb. rewrite HL in Hb.
      destruct (Z.lt_ge_cases b (vsize p)) as [Hlt|Hge].
      * rewrite vget_app_l in Hb by (by rewrite vsize_layout).
        rewrite vget_app_l by (by rewrite vsize_vset).
        rewrite vget_vset_ne; [auto|lia|congruence].
      * rewrite vget_app_r in Hb by (rewrite vsize_layout; lia).
        apply vget_two in Hb as [[Hb _]|[_ ?]]; [|done].
        rewrite vsize_layout in Hb. exists op.
        replace b with (vsize (vset p start x)) by (rewrite vsize_vset; lia).
        apply vget_app_0.
    + intros b Hb.
      pose proof Hb as Hb'. rewrite HL in Hb'.
      destruct (Z.lt_ge_cases b (vsize p)) as [Hlt|Hge].
      2:{ rewrite vget_app_r in Hb' by (rewrite vsize_layout; lia).
          apply vget_two in Hb' as [[_ ?]|[Hb' _]]; [done|].
          rewrite vsize_layout in Hb'.
          right. exists (start + 1).
          replace b with (vsize (vset p start x) + 1)
            by (rewrite vsize_vset; lia).
          rewrite vget_app_1. split; [done|]. rewrite Hsz.
          split; [lia|]. intros _.
          apply layout_after_operand; [|lia].
          rewrite HL, vget_app_l by (rewrite vsize_layout; lia). done. }
      rewrite vget_app_l in Hb' by (by rewrite vsize_layout).
      rewrite vget_app_l by (by rewrite vsize_vset).
      destruct (Z.eq_dec b start) as [->|Hne].
      { right. exists (vsize p + 2). rewrite vget_vset_eq by lia.
        split; [done|]. rewrite Hsz. split; [lia|]. lia. }
      rewrite vget_vset_ne by lia.
      destruct (Hopd b Hb') as [Hin|(n & Hn & Hr & Hk)].
      { apply elem_of_cons in Hin as [?|Hin]; [done|]. by left. }
      right. exists n. split; [done|].
      apply (resolved_grows p _ [false]); try done. lia.
    + intros s Hin. rewrite HL. rewrite vget_app_l.
      * by apply Hst, list_elem_of_further.
      * apply list_elem_of_further with (y := start), Hst, vget_Some_range in Hin.
        lia.
Qed.

Lemma plantChars_planting src : forall p ix cp',
  fits p src -> planting p ix ->
  plantChars src (mk p ix) = Ok cp' ->
  planting (CodePlanter.program cp') (CodePlanter.indexes cp').
Proof.
  induction src as [|ch src IH]; intros p ix cp' Hf Hp Heq; simpl in Heq.
  { by inversion Heq. }
  pose proof (fits_head _ _ _ Hf) as Hs.
  destruct (plantChar ch (mk p ix)) as [[p1 ix1]|f] eqn:Hc; [|done].
  pose proof (planting_step ch p ix _ Hs Hp Hc) as Hp1.
  destruct (plantChar_ok ch p ix _ Hs (planting_stack_ok _ _ Hp) Hc) as [_ Hsz].
  simpl in Hp1, Hsz. pose proof (width_range ch).
  apply (IH p1 ix1); [eapply fits_step; [done|lia]|done|done].
Qed.

(** *** plantProgram *)

Variable halt : OpCode.
Hypothesis map_halt : opcode_map "000"%char = Some halt.

Lemma plantProgram_eq src cp0 :
  plantProgram src cp0
  = match plantChars src cp0 with
    | Ok cp' => Ok (mk (CodePlanter.program cp' ++ [I_opcode halt])
                       (CodePlanter.indexes cp'))
    | Undefined f => Undefined f
    end.
Proof. unfold CodePlanter.plantProgram. by rewrite map_halt. Qed.

(** The planter has two ways out: it falls into [indexes.back()] on an
    empty vector, or it returns, with as many indexes left on the stack
    as there are open brackets without a close bracket. *)
Lemma plantProgram_nesting src p :
  fits p src ->
  match nesting 0 src with
  | None => plantProgram src (mk p []) = Undefined EmptyBack
  | Some d =>
      exists p' ix', plantProgram src (mk p []) = Ok (mk p' ix') /\
                     length ix' = d /\ vsize p' = vsize p + slots src + 1 /\
                     forall s, s ∈ ix' -> vget p' s = Some dummy
  end.
Proof.
  intros Hf. rewrite plantProgram_eq.
  destruct (nesting 0 src) as [d|] eqn:Hn.
  - destruct (plantChars_segment [] 0 src p [] d) as (p' & e' & Heq & Hl & _);
      try done.
    { apply stack_ok_nil. }
    { apply vsize_nonneg. }
    simpl in Heq. rewrite Heq.
    destruct (plantChars_ok src p [] _ Hf (stack_ok_nil p) Heq) as [Hok' Hsz].
    assert (Hu : unresolved dummy p []).
    { split; [constructor|]. split; [apply stack_ok_nil|].
      intros s Hs. by apply elem_of_nil in Hs. }
    destruct (plantChars_unresolved src p [] _ Hf Hu Heq) as (_ & _ & Hd).
    simpl in Hsz, Hd, Hok'. exists (p' ++ [I_opcode halt]), (e' ++ []).
    split; [done|]. rewrite length_app, vsize_app. simpl.
    change (vsize [_]) with 1. split; [lia|]. split; [lia|].
    intros s Hs. unfold stack_ok in Hok'. rewrite Forall_forall in Hok'.
    rewrite vget_app_l by (apply list_elem_of_In, Hok' in Hs; lia). auto.
  - by rewrite (plantChars_underflow src p []) by (done || apply stack_ok_nil).
Qed.

(** The planter appends: the program it finds is still there. *)
Lemma plantProgram_extends src p cp :
  fits p src -> plantProgram src (mk p []) = Ok cp ->
  exists ext, CodePlanter.program cp = p ++ ext.
Proof.
  intros Hf Heq. rewrite plantProgram_eq in Heq.
  destruct (plantChars src (mk p [])) as [cp'|] eqn:Hpl; [|done].
  inversion Heq; subst; clear Heq. simpl.
  destruct (plantChars_ok src p [] cp' Hf (stack_ok_nil p) Hpl) as [_ Hsz].
  pose proof (slots_range src).
  destruct (vget_prefix p (CodePlanter.program cp')) as [ext ->]; [lia| |].
  - intros b Hb. apply (plantChars_frame src p [] cp' Hf (stack_ok_nil p) Hpl b Hb).
    apply not_elem_of_nil.
  - exists (ext ++ [I_opcode halt]). by rewrite app_assoc.
Qed.

(** A balanced text planted by a fresh engine is a well-formed program. *)
Lemma plantProgram_well_formed src cp :
  fits (@nil (Instruction OpCode)) src -> balanced src ->
  plantProgram src (mk [] []) = Ok cp ->
  well_formed takes_operand halt (CodePlanter.program cp) /\
  CodePlanter.indexes cp = [].
Proof.
  intros Hf Hbal Heq. rewrite plantProgram_eq in Heq.
  destruct (plantChars src (mk [] [])) as [[p ix]|] eqn:Hpl; [|done].
  inversion Heq; subst; clear Heq. simpl.
  pose proof (plantChars_planting src [] [] _ Hf planting_nil Hpl) as Hp.
  simpl in Hp.
  destruct (plantChars_segment [] 0 src [] [] 0%nat) as (p' & e' & Heq & Hl & _);
    try done.
  { apply stack_ok_nil. }
  simpl in Heq. rewrite Hpl in Heq. inversion Heq; subst.
  destruct e' as [|]; [|done]. simpl in *.
  destruct Hp as [Hc Hopc Hopd Hst].
  assert (Ht : takes_operand halt = false) by (by rewrite (map_kind "000"%char halt)).
  destruct (kinds_plain p' halt Hc Ht) as [HL HE].
  pose proof (vsize_nonneg p') as Hp0.
  split; [|done]. split.
  - done.
  - intros b Hb. rewrite HL in Hb.
    destruct (Z.lt_ge_cases b (vsize p')) as [Hlt|Hge].
    + rewrite vget_app_l in Hb by (by rewrite vsize_layout).
      rewrite vget_app_l by done. auto.
    + rewrite vget_app_r in Hb by (rewrite vsize_layout; lia).
      apply vget_one in Hb as [Hb _]. rewrite vsize_layout in Hb.
      exists halt. replace b with (vsize p') by lia. apply vget_app_0.
  - intros b Hb. rewrite HL in Hb.
    destruct (Z.lt_ge_cases b (vsize p')) as [Hlt|Hge].
    2:{ rewrite vget_app_r in Hb by (rewrite vsize_layout; lia).
        by apply vget_one in Hb as [_ ?]. }
    rewrite vget_app_l in Hb by (by rewrite vsize_layout).
    destruct (Hopd b Hb) as [Hin|(n & Hn & Hr & Hk)].
    { by apply elem_of_nil in Hin. }
    exists n. rewrite vget_app_l by done. split; [done|].
    apply (resolved_grows p' _ []); try done.
    + rewrite vsize_app. change (vsize [_]) with 1. lia.
    + rewrite vsize_app. change (vsize [_]) with 1. lia.
  - rewrite vsize_app. change (vsize [_]) with 1.
    replace (vsize p' + 1 - 1) with (vsize p') by lia. apply vget_app_0.
Qed.

End PlanterFacts.

Section Parametric.
Context {O1 O2 : Type}.
Variable map1 : ascii -> option O1.
Variable map2 : ascii -> option O2.
Variable d1 : Instruction O1.
Variable d2 : Instruction O2.
Variable f : O1 -> O2.
Hypothesis map_f : forall ch, map2 ch = f <$> map1 ch.

Local Abbreviation image := (image f).

Lemma image_stack_ok ix p1 p2 :
  image ix p1 p2 -> stack_ok p1 ix -> stack_ok p2 ix.
Proof. intros [Hsz _]. unfold stack_ok. by rewrite Hsz. Qed.

Lemma image_app ix p1 p2 q1 q2 :
  image ix p1 p2 -> q2 = map_opcode f <$> q1 ->
  image ix (p1 ++ q1) (p2 ++ q2).
Proof.
  intros [Hsz Him] ->. split.
  - rewrite !vsize_app, Hsz. unfold vsize. by rewrite length_fmap.
  - intros b Hb. destruct (Z.lt_ge_cases b (vsize p1)) as [Hlt|Hge].
    + rewrite !vget_app_l by lia. auto.
    + rewrite !vget_app_r by lia. rewrite Hsz. apply vget_fmap.
Qed.

Lemma image_open ix p1 p2 op :
  image ix p1 p2 ->
  image (vsize p1 + 1 :: ix) (p1 ++ [I_opcode op; d1])
    (p2 ++ [I_opcode (f op); d2]).
Proof.
  intros [Hsz Him]. split.
  - by rewrite !vsize_app, Hsz.
  - intros b [Hne Hb]%not_elem_of_cons.
    destruct (Z.lt_ge_cases b (vsize p1)) as [Hlt|Hge].
    + rewrite !vget_app_l by lia. auto.
    + rewrite !vget_app_r by lia. rewrite Hsz.
      destruct (vget [I_opcode op; d1] (b - vsize p1)) as [i|] eqn:Hi.
      * apply vget_two in Hi as [[H0 ->]|[H1 _]]; [|lia].
        by rewrite H0.
      * apply vget_None in Hi. change (vsize [_; _]) with 2 in Hi.
        apply vget_None. change (vsize [_; _]) with 2. lia.
Qed.

Lemma image_close s ix p1 p2 op x y :
  image (s :: ix) p1 p2 -> 0 <= s < vsize p1 ->
  image ix (vset p1 s (I_operand x) ++ [I_opcode op; I_operand y])
    (vset p2 s (I_operand x) ++ [I_opcode (f op); I_operand y]).
Proof.
  intros [Hsz Him] Hs.
  apply image_app; [|done]. split; [by rewrite !vsize_vset|].
  intros b Hb. destruct (Z.eq_dec b s) as [->|Hne].
  - by rewrite !vget_vset_eq by lia.
  - rewrite !vget_vset_ne by lia. apply Him.
    apply not_elem_of_cons. by split.
Qed.

Lemma plantChar_image ch p1 p2 ix :
  vsize p1 + 2 < 2 ^ 31 -> stack_ok p1 ix -> image ix p1 p2 ->
  match CodePlanter.plantChar map1 d1 ch (CodePlanter.mk p1 ix) with
  | Ok c1 =>
      exists p2',
        CodePlanter.plantChar map2 d2 ch (CodePlanter.mk p2 ix)
        = Ok (CodePlanter.mk p2' (CodePlanter.indexes c1)) /\
        image (CodePlanter.indexes c1) (CodePlanter.program c1) p2'
  | Undefined e =>
      CodePlanter.plantChar map2 d2 ch (CodePlanter.mk p2 ix) = Undefined e
  end.
Proof.
  intros Hs Hok Him. pose proof Him as [Hsz _].
  pose proof (image_stack_ok _ _ _ Him Hok) as Hok2.
  pose proof (map_f ch) as Hm.
  destruct (map1 ch) as [op|] eqn:Hm1; simpl in Hm.
  2:{ rewrite !plantChar_skip by done. by exists p2. }
  destruct (Ascii.eqb_spec ch "["%char) as [->|Ho].
  { rewrite (plantChar_open map1 d1 op), (plantChar_open map2 d2 (f op))
      by (done || lia).
    rewrite Hsz. eexists. split; [done|]. by apply image_open. }
  destruct (Ascii.eqb_spec ch "]"%char) as [->|Hc].
  2:{ rewrite (plantChar_plain map1 d1 ch op), (plantChar_plain map2 d2 ch (f op))
        by done.
      eexists. split; [done|]. by apply image_app. }
  destruct ix as [|s ix].
  { by rewrite (plantChar_close_empty map1 d1 op),
               (plantChar_close_empty map2 d2 (f op)). }
  apply stack_ok_cons in Hok as [Hs1 _].
  rewrite (plantChar_close map1 d1 op), (plantChar_close map2 d2 (f op))
    by (done || lia).
  rewrite Hsz. eexists. split; [done|]. by apply image_close.
Qed.

Lemma plantChars_image src : forall p1 p2 ix,
  fits p1 src -> stack_ok p1 ix -> image ix p1 p2 ->
  match CodePlanter.plantChars map1 d1 src (CodePlanter.mk p1 ix) with
  | Ok c1 =>
      exists p2',
        CodePlanter.plantChars map2 d2 src (CodePlanter.mk p2 ix)
        = Ok (CodePlanter.mk p2' (CodePlanter.indexes c1)) /\
        image (CodePlanter.indexes c1) (CodePlanter.program c1) p2'
  | Undefined e =>
      CodePlanter.plantChars map2 d2 src (CodePlanter.mk p2 ix) = Undefined e
  end.
Proof.
  induction src as [|ch src IH]; intros p1 p2 ix Hf Hok Him; simpl.
  { by exists p2. }
  pose proof (fits_head _ _ _ Hf) as Hs.
  pose proof (plantChar_image ch p1 p2 ix Hs Hok Him) as Hst.
  pose proof (plantChar_ok map1 d1 ch p1 ix) as Hstep.
  destruct (CodePlanter.plantChar map1 d1 ch _) as [[q1 ix1]|e].
  2:{ by rewrite Hst. }
  destruct Hst as (q2 & -> & Him1). simpl in Him1.
  destruct (Hstep _ Hs Hok eq_refl) as [Hok1 Hsz1]. simpl in Hok1, Hsz1.
  pose proof (width_range map1 ch).
  apply IH; [eapply fits_step; [done|lia]|done|done].
Qed.

(** With nothing left on the stack, the second program is the renaming
    of the first. *)
Lemma image_nil p1 p2 : image [] p1 p2 -> p2 = map_opcode f <$> p1.
Proof.
  intros [Hsz Him]. apply list_eq. intros i.
  rewrite <- !vget_of_nat, vget_fmap. apply Him, not_elem_of_nil.
Qed.

End Parametric.

Section Comments.
Context {OpCode : Type}.
Variable opcode_map : ascii -> option OpCode.
Variable dummy : Instruction OpCode.

Local Abbreviation plantChars := (CodePlanter.plantChars opcode_map dummy).
Local Abbreviation plantProgram := (CodePlanter.plantProgram opcode_map dummy).

(** A character that the map does not have leaves no trace. *)
Lemma plantChars_skip s1 ch s2 cp :
  opcode_map ch = None ->
  plantChars (s1 ++ ch :: s2) cp = plantChars (s1 ++ s2) cp.
Proof.
  intros H. rewrite !plantChars_app.
  destruct (plantChars s1 cp); [|done].
  simpl. by rewrite plantChar_skip.
Qed.

Lemma plantProgram_skip s1 ch s2 cp :
  opcode_map ch = None ->
  plantProgram (s1 ++ ch :: s2) cp = plantProgram (s1 ++ s2) cp.
Proof.
  intros H. unfold CodePlanter.plantProgram. by rewrite plantChars_skip.
Qed.

Lemma plantChars_skip_all src cp :
  Forall (fun ch => opcode_map ch = None) src -> plantChars src cp = Ok cp.
Proof.
  induction 1 as [|ch src H _ IH]; simpl; [done|].
  by rewrite plantChar_skip.
Qed.

End Comments.

(** * The dispatch loops *)

Section ExecFacts.
Variable step : Machine -> Step.

Lemma exec_ext (step' : Machine -> Step) :
  (forall m, step' m = step m) ->
  forall fuel m, exec step' fuel m = exec step fuel m.
Proof.
  intros H fuel. induction fuel as [|fuel IH]; intros m; simpl; [done|].
  rewrite H. destruct (step m); auto.
Qed.



(** The loop carries an invariant of the step function. *)
Lemma exec_invariant (inv : Machine -> Prop) (good : Fault -> Prop) :
  (forall m, inv m ->
    match step m with
    | Next m' => inv m'
    | Done _ => True
    | Stuck f => good f
    end) ->
  forall fuel m, inv m ->
    match exec step fuel m with
    | Crashed f => good f
    | _ => True
    end.
Proof.
  intros Hstep fuel. induction fuel as [|fuel IH]; intros m Hm; simpl; [done|].
  specialize (Hstep m Hm). destruct (step m); [by apply IH|done|done].
Qed.

End ExecFacts.

(** ** The switch of Switch.cpp *)

Lemma switch_map_kind ch op :
  switch_.opcode_map ch = Some op ->
  switch_.takes_operand op = ((ch =? "[") || (ch =? "]"))%char.
Proof.
  destruct ch as [[] [] [] [] [] [] [] []]; simpl; intros H; inversion H; done.
Qed.

Lemma do_jump_app {OpCode : Type} (p ext : list (Instruction OpCode)) test m :
  do_jump p test m <> Stuck PcRange ->
  do_jump (p ++ ext) test m = do_jump p test m.
Proof.
  unfold do_jump. destruct (vget p (pc m)) as [i|] eqn:Hi; [|done].
  intros _. apply vget_Some_range in Hi as Hr.
  by rewrite vget_app_l, Hi by lia.
Qed.

(** A step that reads inside [p] is the same step in a longer program. *)
Lemma switch_step_app p ext m :
  switch_.step p m <> Stuck PcRange ->
  switch_.step (p ++ ext) m = switch_.step p m.
Proof.
  unfold switch_.step. destruct (vget p (pc m)) as [i|] eqn:Hi; [|done].
  apply vget_Some_range in Hi as Hr.
  rewrite vget_app_l, Hi by lia.
  destruct i as [[]|]; try done; apply do_jump_app.
Qed.

Lemma switch_exec_app p ext fuel : forall m,
  exec (switch_.step p) fuel m <> Crashed PcRange ->
  exec (switch_.step (p ++ ext)) fuel m = exec (switch_.step p) fuel m.
Proof.
  induction fuel as [|fuel IH]; intros m Hne; simpl in *; [done|].
  rewrite switch_step_app.
  - destruct (switch_.step p m); auto.
  - intros Heq. by rewrite Heq in Hne.
Qed.

(** In a well-formed program a step that starts on an opcode slot ends
    on an opcode slot, returns, or leaves the tape. *)
Lemma switch_step_safe p m :
  well_formed switch_.takes_operand switch_.HALT p ->
  vget (layout switch_.takes_operand false p) (pc m) = Some true ->
  match switch_.step p m with
  | Next m' => vget (layout switch_.takes_operand false p) (pc m') = Some true
  | Done _ => True
  | Stuck f => f = TapeRange
  end.
Proof.
  intros [Hc Hopc Hopd Hhalt] Hpc.
  destruct (Hopc _ Hpc) as [o Ho].
  pose proof (vget_Some_range _ _ _ Ho) as Hr.
  unfold switch_.step. rewrite Ho.
  assert (Hnext : o <> switch_.HALT -> pc m + 1 < vsize p).
  { intros Hne. destruct (Z.eq_dec (pc m) (vsize p - 1)) as [Heq|]; [|lia].
    rewrite Heq in Ho. congruence. }
  assert (Hplain : switch_.takes_operand o = false -> o <> switch_.HALT ->
            vget (layout switch_.takes_operand false p) (pc m + 1) = Some true).
  { intros Ht Hne.
    rewrite (layout_after_opcode _ _ _ _ o Hpc Ho (Hnext Hne)). by rewrite Ht. }
  assert (Hjump : forall test, switch_.takes_operand o = true ->
            match do_jump p test (set_pc (pc m + 1) m) with
            | Next m' => vget (layout switch_.takes_operand false p) (pc m') = Some true
            | Done _ => True
            | Stuck f => f = TapeRange
            end).
  { intros test Ht.
    assert (Hne : o <> switch_.HALT) by (by intros ->).
    pose proof (layout_after_opcode _ _ _ _ o Hpc Ho (Hnext Hne)) as Hk.
    rewrite Ht in Hk. simpl in Hk.
    destruct (Hopd _ Hk) as (n & Hn & Hkn).
    unfold do_jump. simpl. rewrite Hn.
    unfold deref. simpl. destruct (vget (mem m) (loc m)); [|done].
    destruct (test z); simpl; [done|].
    replace (pc m + 1 + 1) with ((pc m + 1) + 1) by lia.
    apply layout_after_operand; [done|].
    pose proof (vget_Some_range _ _ _ Hn) as Hrn.
    destruct (Z.eq_dec (pc m + 1) (vsize p - 1)) as [Heq|]; [|lia].
    rewrite Heq in Hn. congruence. }
  destruct o; simpl.
  - unfold do_add, deref. simpl. destruct (vget (mem m) (loc m)); [|done].
    simpl. by apply Hplain.
  - unfold do_add, deref. simpl. destruct (vget (mem m) (loc m)); [|done].
    simpl. by apply Hplain.
  - by apply Hplain.
  - by apply Hplain.
  - by apply Hjump.
  - by apply Hjump.
  - unfold do_put, deref. simpl. destruct (vget (mem m) (loc m)); [|done].
    simpl. by apply Hplain.
  - unfold do_get, deref. simpl. destruct (cin m); simpl; [by apply Hplain|].
    destruct (vget (mem m) (loc m)); [|done].
    simpl. by apply Hplain.
  - done.
Qed.

Lemma switch_exec_safe p fuel m :
  well_formed switch_.takes_operand switch_.HALT p ->
  vget (layout switch_.takes_operand false p) (pc m) = Some true ->
  match exec (switch_.step p) fuel m with
  | Crashed f => f = TapeRange
  | _ => True
  end.
Proof.
  intros Hwf. revert m.
  apply (exec_invariant (switch_.step p)
           (fun m => vget (layout switch_.takes_operand false p) (pc m) = Some true)
           (fun f => f = TapeRange)).
  intros m. by apply switch_step_safe.
Qed.

(** ** The maps of the four files *)

Lemma gotos_map_kind ch op :
  computed_gotos.opcode_map ch = Some op ->
  computed_gotos.takes_operand op = ((ch =? "[") || (ch =? "]"))%char.
Proof.
  destruct ch as [[] [] [] [] [] [] [] []]; simpl; intros H; inversion H; done.
Qed.

Lemma demo_map_eq ch :
  direct_threading_demo.opcode_map ch = computed_gotos.opcode_map ch.
Proof. by destruct ch as [[] [] [] [] [] [] [] []]. Qed.

Lemma comment_char_switch ch :
  comment_char ch = true -> switch_.opcode_map ch = None.
Proof. by destruct ch as [[] [] [] [] [] [] [] []]. Qed.

Lemma comment_char_gotos ch :
  comment_char ch = true -> computed_gotos.opcode_map ch = None.
Proof. by destruct ch as [[] [] [] [] [] [] [] []]. Qed.

Lemma comment_char_demo ch :
  comment_char ch = true -> direct_threading_demo.opcode_map ch = None.
Proof. rewrite demo_map_eq. apply comment_char_gotos. Qed.

(** ** The labels and the switch *)

(** The label engines and the switch engine, step by step. *)

Lemma gotos_map_label ch :
  computed_gotos.opcode_map ch = label_of <$> switch_.opcode_map ch.
Proof. by destruct ch as [[] [] [] [] [] [] [] []]. Qed.

Lemma do_jump_image (p : list (Instruction switch_.OpCode)) test m :
  do_jump (map_opcode label_of <$> p) test m = do_jump p test m.
Proof.
  unfold do_jump. rewrite vget_fmap. by destruct (vget p (pc m)) as [[|]|].
Qed.

Lemma gotos_step_image (p : list (Instruction switch_.OpCode)) m :
  computed_gotos.step (map_opcode label_of <$> p) m = switch_.step p m.
Proof.
  unfold computed_gotos.step, switch_.step. rewrite vget_fmap.
  destruct (vget p (pc m)) as [[[]|]|]; simpl; try done; apply do_jump_image.
Qed.

Lemma lambdas_step (p : list (Instruction computed_gotos.OpCode)) m :
  two.step_lambdas p m = computed_gotos.step p m.
Proof.
  unfold two.step_lambdas, computed_gotos.step, two.call.
  change (vget (A := Instruction two.OpCode) p (pc m)) with (vget p (pc m)).
  destruct (vget p (pc m)) as [[o|]|]; try done.
  destruct o as [|l]; [done|]. by destruct l.
Qed.

(** For a balanced text, the planter of the label engines plants the
    program of [Switch.cpp] with every opcode turned into the address of
    its label. *)
Lemma gotos_compile_image src cp :
  short src -> balanced src -> switch_.compile src = Ok cp ->
  computed_gotos.compile src
  = Ok (CodePlanter.mk (map_opcode label_of <$> CodePlanter.program cp) []).
Proof.
  intros Hs Hbal Hcp.
  pose proof (short_fits (I := Instruction switch_.OpCode) src Hs) as Hf.
  destruct (plantProgram_well_formed switch_.opcode_map switch_.dummy
              switch_.OPEN switch_.CLOSE eq_refl eq_refl
              switch_.takes_operand switch_map_kind switch_.HALT eq_refl
              src cp Hf Hbal Hcp) as [_ Hix].
  unfold switch_.compile in Hcp. unfold computed_gotos.compile.
  rewrite (plantProgram_eq _ _ switch_.HALT) in Hcp by done.
  rewrite (plantProgram_eq _ _ (label_of switch_.HALT)) by done.
  pose proof (plantChars_image switch_.opcode_map computed_gotos.opcode_map
                switch_.dummy computed_gotos.dummy label_of gotos_map_label
                src [] [] [] Hf (stack_ok_nil _)) as Him.
  destruct (CodePlanter.plantChars switch_.opcode_map _ _ _) as [[p1 ix1]|]; [|done].
  inversion Hcp; subst cp; clear Hcp. simpl in *. subst ix1.
  destruct Him as (p2 & -> & Him).
  { split; [done|]. intros b _. unfold vget. by destruct (b <? 0). }
  apply image_nil in Him. subst p2. simpl.
  by rewrite fmap_app.
Qed.

(** * The claims *)

(** ** Loop operands *)

(** C2, as the specification words it, fails on the shortest loop: in the
    program of [[]] the [OPEN] is at slot 0 and the [CLOSE] at slot 2, and
    the operand of the [CLOSE] is 2, not 0 + 1. *)
Lemma close_operand_is_not_open_plus_1 :
  exists cp,
    switch_.compile (bf "[]") = Ok cp /\
    vget (CodePlanter.program cp) 0 = Some (I_opcode switch_.OPEN) /\
    vget (CodePlanter.program cp) 2 = Some (I_opcode switch_.CLOSE) /\
    ~ spec_loop_operands (CodePlanter.program cp) 0 2.
Proof.
  eexists. split; [reflexivity|]. repeat split.
  intros [_ H]. vm_compute in H. discriminate H.
Qed.

(** C2, amended: for every loop of a source text, i.e. an open bracket, a
    balanced body and a close bracket, the operand planted behind the
    [OPEN] is the index of the [CLOSE] plus 2, and the operand planted
    behind the [CLOSE] is the index of the [OPEN] plus 2, the first slot of
    the loop body.  It holds for the planter of [Switch.cpp] and for the
    planter of [ComputedGotos.cpp] and [main2.cpp]. *)
Theorem loop_operands_resolved (pre body post : list ascii) :
  let src := pre ++ "["%char :: body ++ "]"%char :: post in
  short src -> balanced body ->
  (forall cp, switch_.compile src = Ok cp ->
     let o := slots switch_.opcode_map pre in
     let c := o + 2 + slots switch_.opcode_map body in
     vget (CodePlanter.program cp) o = Some (I_opcode switch_.OPEN) /\
     vget (CodePlanter.program cp) c = Some (I_opcode switch_.CLOSE) /\
     loop_operands (CodePlanter.program cp) o c) /\
  (forall cp, computed_gotos.compile src = Ok cp ->
     let o := slots computed_gotos.opcode_map pre in
     let c := o + 2 + slots computed_gotos.opcode_map body in
     vget (CodePlanter.program cp) o
       = Some (I_opcode (computed_gotos.address_of computed_gotos.OPEN)) /\
     vget (CodePlanter.program cp) c
       = Some (I_opcode (computed_gotos.address_of computed_gotos.CLOSE)) /\
     loop_operands (CodePlanter.program cp) o c).
Proof.
  intros src Hf Hbal. split; intros cp Hcp o c.
  all: pose proof (short_fits (I := Instruction switch_.OpCode) src Hf).
  all: pose proof (short_fits (I := Instruction computed_gotos.OpCode) src Hf).
  - unfold switch_.compile in Hcp.
    rewrite (plantProgram_eq _ _ switch_.HALT) in Hcp by done.
    destruct (CodePlanter.plantChars _ _ src _) as [cp'|] eqn:Hpl; [|done].
    inversion Hcp; subst; clear Hcp. simpl.
    destruct (plantChars_loop switch_.opcode_map switch_.dummy
                switch_.OPEN switch_.CLOSE eq_refl eq_refl [] pre body post cp')
      as (H1 & H2 & H3 & H4); try done.
    change (vsize []) with 0 in *. rewrite Z.add_0_l in *.
    fold o in H1, H2, H3, H4. fold c in H2, H3, H4.
    pose proof (vget_Some_range _ _ _ H1). pose proof (vget_Some_range _ _ _ H2).
    pose proof (vget_Some_range _ _ _ H3). pose proof (vget_Some_range _ _ _ H4).
    unfold loop_operands. rewrite !vget_app_l by lia. done.
  - unfold computed_gotos.compile in Hcp.
    rewrite (plantProgram_eq _ _ (computed_gotos.address_of computed_gotos.HALT))
      in Hcp by done.
    destruct (CodePlanter.plantChars _ _ src _) as [cp'|] eqn:Hpl; [|done].
    inversion Hcp; subst; clear Hcp. simpl.
    destruct (plantChars_loop computed_gotos.opcode_map computed_gotos.dummy
                (computed_gotos.address_of computed_gotos.OPEN)
                (computed_gotos.address_of computed_gotos.CLOSE)
                eq_refl eq_refl [] pre body post cp')
      as (H1 & H2 & H3 & H4); try done.
    change (vsize []) with 0 in *. rewrite Z.add_0_l in *.
    fold o in H1, H2, H3, H4. fold c in H2, H3, H4.
    pose proof (vget_Some_range _ _ _ H1). pose proof (vget_Some_range _ _ _ H2).
    pose proof (vget_Some_range _ _ _ H3). pose proof (vget_Some_range _ _ _ H4).
    unfold loop_operands. rewrite !vget_app_l by lia. done.
Qed.

Lemma loop_operands_resolved_witness :
  exists cp,
    switch_.compile (bf "+[-].") = Ok cp /\
    vget (CodePlanter.program cp) 1 = Some (I_opcode switch_.OPEN) /\
    vget (CodePlanter.program cp) 4 = Some (I_opcode switch_.CLOSE) /\
    loop_operands (CodePlanter.program cp) 1 4.
Proof.
  eexists. split; [reflexivity|].
  apply (proj1 (loop_operands_resolved (bf "+") (bf "-") (bf ".")
                  ltac:(vm_compute; reflexivity) ltac:(reflexivity)) _ eq_refl).
Defined.

(** ** Unbalanced brackets *)

(** C3 fails on a lone open bracket: the text is not balanced, and the
    planter returns all the same, with the dummy still behind the [OPEN]
    and its index still on the stack. *)
Lemma unmatched_open_is_planted :
  ~ balanced (bf "[") /\
  switch_.compile (bf "[")
  = Ok (CodePlanter.mk
          [I_opcode switch_.OPEN; switch_.dummy; I_opcode switch_.HALT] [1]) /\
  computed_gotos.compile (bf "[")
  = Ok (CodePlanter.mk
          [I_opcode (computed_gotos.address_of computed_gotos.OPEN);
           computed_gotos.dummy;
           I_opcode (computed_gotos.address_of computed_gotos.HALT)] [1]).
Proof. split; [discriminate|]. split; reflexivity. Qed.

(** C3, amended: the planter reports no error.  It returns for every text
    in which no close bracket meets an empty stack, and then it leaves on
    the stack one index for each open bracket without a close bracket, the
    slot at that index still holding the dummy; so it leaves none for a
    balanced text.  Where a close bracket meets the empty stack it runs
    into [indexes.back()] of an empty vector. *)
Theorem planter_outcomes (src : list ascii) :
  short src ->
  (nesting 0 src = None ->
     switch_.compile src = Undefined EmptyBack /\
     computed_gotos.compile src = Undefined EmptyBack) /\
  (forall d, nesting 0 src = Some d ->
     (exists cp, switch_.compile src = Ok cp /\
                 length (CodePlanter.indexes cp) = d /\
                 forall s, s ∈ CodePlanter.indexes cp ->
                   vget (CodePlanter.program cp) s = Some switch_.dummy) /\
     (exists cp, computed_gotos.compile src = Ok cp /\
                 length (CodePlanter.indexes cp) = d /\
                 forall s, s ∈ CodePlanter.indexes cp ->
                   vget (CodePlanter.program cp) s = Some computed_gotos.dummy)) /\
  (balanced src ->
     (exists cp, switch_.compile src = Ok cp /\ CodePlanter.indexes cp = []) /\
     (exists cp, computed_gotos.compile src = Ok cp /\ CodePlanter.indexes cp = [])).
Proof.
  intros Hs.
  pose proof (plantProgram_nesting switch_.opcode_map switch_.dummy
                switch_.OPEN switch_.CLOSE eq_refl eq_refl switch_.HALT eq_refl
                src [] (short_fits src Hs)) as HS.
  pose proof (plantProgram_nesting computed_gotos.opcode_map computed_gotos.dummy
                _ _ eq_refl eq_refl _ eq_refl src [] (short_fits src Hs)) as HG.
  fold (switch_.compile src) in HS. fold (computed_gotos.compile src) in HG.
  split; [|split].
  - intros Hn. by rewrite Hn in HS, HG.
  - intros d Hd. rewrite Hd in HS, HG.
    destruct HS as (p1 & ix1 & H1 & Hl1 & _ & Hd1).
    destruct HG as (p2 & ix2 & H2 & Hl2 & _ & Hd2).
    split; eexists; (split; [eassumption|by split]).
  - intros Hb. rewrite Hb in HS, HG.
    destruct HS as (p1 & ix1 & H1 & Hl1 & _), HG as (p2 & ix2 & H2 & Hl2 & _).
    apply nil_length_inv in Hl1, Hl2. subst.
    split; eexists; (split; [eassumption|done]).
Qed.

Lemma planter_outcomes_witness :
  (exists cp, switch_.compile (bf "[[]") = Ok cp /\
              length (CodePlanter.indexes cp) = 1%nat /\
              forall s, s ∈ CodePlanter.indexes cp ->
                vget (CodePlanter.program cp) s = Some switch_.dummy) /\
  (exists cp, computed_gotos.compile (bf "[[]") = Ok cp /\
              length (CodePlanter.indexes cp) = 1%nat /\
              forall s, s ∈ CodePlanter.indexes cp ->
                vget (CodePlanter.program cp) s = Some computed_gotos.dummy).
Proof.
  apply (proj1 (proj2 (planter_outcomes (bf "[[]") ltac:(vm_compute; reflexivity)))
           1%nat eq_refl).
Defined.

(** ** Comments *)

(** C7 fails on the NUL character, which is outside the alphabet and which
    the maps of all four files have as the key of [HALT]: a text made of
    it is planted as two [HALT]s, and put in front of [+.] it takes the
    output away. *)
Lemma nul_is_planted :
  outside_alphabet "000"%char = true /\
  switch_.compile ["000"%char]
  = Ok (CodePlanter.mk [I_opcode switch_.HALT; I_opcode switch_.HALT] []) /\
  direct_threading_demo.compile ["000"%char]
  = Ok (CodePlanter.mk
          [I_opcode (computed_gotos.address_of computed_gotos.HALT);
           I_opcode (computed_gotos.address_of computed_gotos.HALT)] []) /\
  written_by (switch_.runMacros new_Engine (bf "+.") [] 3) = Some [1] /\
  written_by (switch_.runMacros new_Engine ("000"%char :: bf "+.") [] 3) = Some [].
Proof. repeat split; vm_compute; reflexivity. Qed.

(** C7, amended: a text made of characters that are outside the alphabet
    and are not NUL is planted, by a fresh engine, as the one [HALT];
    running it writes nothing, reads nothing and leaves the tape all zero;
    and such a character, wherever it stands in a text, changes nothing in
    what is planted.  This holds for the planter of [Switch.cpp] and for
    that of [direct_threading_demo.cpp]. *)
Theorem comments_are_skipped :
  (forall src, forallb comment_char src = true ->
     switch_.compile src = Ok (CodePlanter.mk [I_opcode switch_.HALT] []) /\
     direct_threading_demo.compile src
     = Ok (CodePlanter.mk
             [I_opcode (computed_gotos.address_of computed_gotos.HALT)] []) /\
     forall input fuel,
       switch_.runMacros new_Engine src input (S fuel)
       = Returned (mkRan (mkEngine [I_opcode switch_.HALT] fresh_memory) [] input)) /\
  (forall s1 ch s2, comment_char ch = true ->
     (forall cp,
        CodePlanter.plantProgram switch_.opcode_map switch_.dummy (s1 ++ ch :: s2) cp
        = CodePlanter.plantProgram switch_.opcode_map switch_.dummy (s1 ++ s2) cp) /\
     (forall cp,
        CodePlanter.plantProgram direct_threading_demo.opcode_map
          direct_threading_demo.dummy (s1 ++ ch :: s2) cp
        = CodePlanter.plantProgram direct_threading_demo.opcode_map
            direct_threading_demo.dummy (s1 ++ s2) cp)).
Proof.
  split.
  - intros src Hsrc. rewrite forallb_forall in Hsrc.
    assert (HS : switch_.compile src
                 = Ok (CodePlanter.mk [I_opcode switch_.HALT] [])).
    { unfold switch_.compile, CodePlanter.plantProgram.
      rewrite plantChars_skip_all; [done|].
      apply Forall_forall. intros ch Hch. by apply comment_char_switch, Hsrc. }
    split; [done|]. split.
    + unfold direct_threading_demo.compile, CodePlanter.plantProgram.
      rewrite plantChars_skip_all; [done|].
      apply Forall_forall. intros ch Hch. by apply comment_char_demo, Hsrc.
    + intros input fuel. unfold switch_.runMacros, run_with.
      change (CodePlanter.plantProgram switch_.opcode_map switch_.dummy src
                (CodePlanter.mk (program new_Engine) []))
        with (switch_.compile src).
      by rewrite HS.
  - intros s1 ch s2 Hch. split; intros cp.
    + by apply plantProgram_skip, comment_char_switch.
    + by apply plantProgram_skip, comment_char_demo.
Qed.

Lemma comments_are_skipped_witness :
  switch_.compile (bf "hello world") = Ok (CodePlanter.mk [I_opcode switch_.HALT] []) /\
  direct_threading_demo.compile (bf "hello world")
  = Ok (CodePlanter.mk
          [I_opcode (computed_gotos.address_of computed_gotos.HALT)] []) /\
  forall input fuel,
    switch_.runMacros new_Engine (bf "hello world") input (S fuel)
    = Returned (mkRan (mkEngine [I_opcode switch_.HALT] fresh_memory) [] input).
Proof.
  apply (proj1 comments_are_skipped (bf "hello world")). reflexivity.
Defined.

(** ** Safety of a planted program *)

(** C9: the program that a fresh engine plants for a balanced text ends in
    a [HALT]; every operand in it is an index into it; the operand of an
    [OPEN] is the index of its [CLOSE] plus 2, at most the index of the
    last [HALT]; the operand of a [CLOSE] is the first slot of the body of
    its loop; and the dispatch loop of [runMacros] never reads a slot
    outside the program, an operand as an opcode or a dummy as an operand:
    the only fault left to it is to leave the tape. *)
Theorem balanced_program_is_safe (src : list ascii) (cp : CodePlanter.state switch_.OpCode) :
  short src -> balanced src -> switch_.compile src = Ok cp ->
  let p := CodePlanter.program cp in
  vget p (vsize p - 1) = Some (I_opcode switch_.HALT) /\
  (forall b n, vget p b = Some (I_operand n) -> 0 <= n < vsize p) /\
  (forall pre body post,
     src = pre ++ "["%char :: body ++ "]"%char :: post -> balanced body ->
     let o := slots switch_.opcode_map pre in
     let c := o + 2 + slots switch_.opcode_map body in
     vget p (o + 1) = Some (I_operand (c + 2)) /\ c + 2 <= vsize p - 1 /\
     vget p (c + 1) = Some (I_operand (o + 2)) /\ o + 2 <= c) /\
  (forall input fuel f,
     switch_.runMacros new_Engine src input fuel = Crashed f -> f = TapeRange).
Proof.
  intros Hs Hbal Hcp p.
  pose proof (short_fits (I := Instruction switch_.OpCode) src Hs) as Hf.
  destruct (plantProgram_well_formed switch_.opcode_map switch_.dummy
              switch_.OPEN switch_.CLOSE eq_refl eq_refl
              switch_.takes_operand switch_map_kind switch_.HALT eq_refl
              src cp Hf Hbal Hcp) as [Hwf Hix].
  fold p in Hwf.
  assert (Hrange : forall b n, vget p b = Some (I_operand n) -> 0 <= n < vsize p).
  { intros b n Hb. by destruct (well_formed_operand _ _ _ _ _ Hwf Hb). }
  split; [apply Hwf|]. split; [done|]. split.
  - intros pre body post -> Hbody o c.
    unfold switch_.compile in Hcp.
    rewrite (plantProgram_eq _ _ switch_.HALT) in Hcp by done.
    destruct (CodePlanter.plantChars _ _ _ _) as [cp'|] eqn:Hpl; [|done].
    inversion Hcp; subst cp; clear Hcp. simpl in p.
    destruct (plantChars_loop switch_.opcode_map switch_.dummy
                switch_.OPEN switch_.CLOSE eq_refl eq_refl [] pre body post cp')
      as (H1 & H2 & H3 & H4); try done.
    change (vsize []) with 0 in *. rewrite Z.add_0_l in *.
    fold o in H1, H2, H3, H4. fold c in H2, H3, H4.
    pose proof (vget_Some_range _ _ _ H2). pose proof (vget_Some_range _ _ _ H4).
    assert (Ho : vget p (o + 1) = Some (I_operand (c + 2))).
    { unfold p. by rewrite vget_app_l by lia. }
    assert (Hc : vget p (c + 1) = Some (I_operand (o + 2))).
    { unfold p. by rewrite vget_app_l by lia. }
    pose proof (Hrange _ _ Ho). pose proof (slots_range switch_.opcode_map body).
    repeat split; try done; unfold c in *; lia.
  - intros input fuel f Hrun. unfold switch_.runMacros, run_with in Hrun.
    change (CodePlanter.plantProgram switch_.opcode_map switch_.dummy src
              (CodePlanter.mk (program new_Engine) []))
      with (switch_.compile src) in Hrun.
    rewrite Hcp in Hrun. fold p in Hrun.
    pose proof (switch_exec_safe p fuel
                  (mkMachine 0 0 (memory (@new_Engine switch_.OpCode)) input [])
                  Hwf) as Hsafe.
    destruct (exec _ _ _); try done.
    inversion Hrun; subst. apply Hsafe. simpl.
    apply layout_head. intros Hnil. destruct Hwf as [_ _ _ Hh].
    rewrite Hnil in Hh. done.
Qed.

Lemma balanced_program_is_safe_witness :
  exists cp,
    switch_.compile (bf "+[>,.<-]") = Ok cp /\
    vget (CodePlanter.program cp) (vsize (CodePlanter.program cp) - 1)
    = Some (I_opcode switch_.HALT) /\
    (forall b n, vget (CodePlanter.program cp) b = Some (I_operand n) ->
       0 <= n < vsize (CodePlanter.program cp)) /\
    (forall input fuel f,
       switch_.runMacros new_Engine (bf "+[>,.<-]") input fuel = Crashed f ->
       f = TapeRange).
Proof.
  eexists. split; [reflexivity|].
  destruct (balanced_program_is_safe (bf "+[>,.<-]") _
              ltac:(vm_compute; reflexivity) ltac:(reflexivity) eq_refl)
    as (H1 & H2 & _ & H4).
  split; [exact H1|]. split; [exact H2|exact H4].
Defined.

(** ** A second call on the same engine *)

(** The same for the labels: a step that reads inside [p]. *)
Lemma gotos_step_app p ext m :
  computed_gotos.step p m <> Stuck PcRange ->
  computed_gotos.step (p ++ ext) m = computed_gotos.step p m.
Proof.
  unfold computed_gotos.step. destruct (vget p (pc m)) as [i|] eqn:Hi; [|done].
  apply vget_Some_range in Hi as Hr.
  rewrite vget_app_l, Hi by lia.
  destruct i as [[|[]]|]; try done; apply do_jump_app.
Qed.

Lemma gotos_exec_app p ext fuel : forall m,
  exec (computed_gotos.step p) fuel m <> Crashed PcRange ->
  exec (computed_gotos.step (p ++ ext)) fuel m = exec (computed_gotos.step p) fuel m.
Proof.
  induction fuel as [|fuel IH]; intros m Hne; simpl in *; [done|].
  rewrite gotos_step_app.
  - destruct (computed_gotos.step p m); auto.
  - intros Heq. by rewrite Heq in Hne.
Qed.

(** A second call of [switch_::Engine::runMacros]. *)
Lemma switch_second_call src1 src2 in1 in2 fuel1 fuel2 r1 :
  short src1 -> balanced src1 ->
  switch_.runMacros new_Engine src1 in1 fuel1 = Returned r1 ->
  fits (program (engine r1)) src2 ->
  switch_.compile src1 = Ok (CodePlanter.mk (program (engine r1)) []) /\
  reruns_first switch_.opcode_map switch_.dummy switch_.step
    (engine r1) src2 in2 fuel2.
Proof.
  intros Hs Hbal Hrun Hf2.
  pose proof (short_fits (I := Instruction switch_.OpCode) src1 Hs) as Hf.
  unfold switch_.runMacros, run_with in Hrun.
  change (CodePlanter.plantProgram switch_.opcode_map switch_.dummy src1
            (CodePlanter.mk (program new_Engine) []))
    with (switch_.compile src1) in Hrun.
  destruct (switch_.compile src1) as [[p1 ix1]|] eqn:Hcp; [|done].
  destruct (plantProgram_well_formed switch_.opcode_map switch_.dummy
              switch_.OPEN switch_.CLOSE eq_refl eq_refl
              switch_.takes_operand switch_map_kind switch_.HALT eq_refl
              src1 _ Hf Hbal Hcp) as [Hwf Hix].
  simpl in Hwf, Hix, Hrun. subst ix1.
  destruct (exec _ fuel1 _) as [m1| |]; try done.
  inversion Hrun; subst r1; clear Hrun. simpl in *.
  split; [done|]. unfold reruns_first. simpl.
  destruct (CodePlanter.plantProgram _ _ src2 _) as [cp2|f] eqn:Hcp2.
  2:{ unfold run_with. simpl. by rewrite Hcp2. }
  destruct (plantProgram_extends switch_.opcode_map switch_.dummy
              switch_.HALT eq_refl src2 p1 cp2 Hf2 Hcp2) as [ext Hext].
  split; [by exists ext|].
  unfold run_with. simpl. rewrite Hcp2, Hext.
  rewrite switch_exec_app; [done|].
  pose proof (switch_exec_safe p1 fuel2 (mkMachine 0 0 (mem m1) in2 []) Hwf) as Hsafe.
  intros Hcr. rewrite Hcr in Hsafe. discriminate Hsafe.
  simpl. apply layout_head. intros Hnil. destruct Hwf as [_ _ _ Hh].
  rewrite Hnil in Hh. done.
Qed.

(** A second call of [computed_gotos::Engine::runFile]. *)
Lemma gotos_second_call src1 src2 in1 in2 fuel1 fuel2 r1 :
  short src1 -> balanced src1 ->
  computed_gotos.runFile new_Engine src1 in1 fuel1 = Returned r1 ->
  fits (program (engine r1)) src2 ->
  computed_gotos.compile src1 = Ok (CodePlanter.mk (program (engine r1)) []) /\
  reruns_first computed_gotos.opcode_map computed_gotos.dummy computed_gotos.step
    (engine r1) src2 in2 fuel2.
Proof.
  intros Hs Hbal Hrun Hf2.
  pose proof (short_fits (I := Instruction switch_.OpCode) src1 Hs) as Hf.
  pose proof (plantProgram_nesting switch_.opcode_map switch_.dummy
                switch_.OPEN switch_.CLOSE eq_refl eq_refl switch_.HALT eq_refl
                src1 [] Hf) as HS.
  rewrite Hbal in HS. destruct HS as (ps & ixs & Hcps & _).
  fold (switch_.compile src1) in Hcps.
  destruct (plantProgram_well_formed switch_.opcode_map switch_.dummy
              switch_.OPEN switch_.CLOSE eq_refl eq_refl
              switch_.takes_operand switch_map_kind switch_.HALT eq_refl
              src1 _ Hf Hbal Hcps) as [Hwf _].
  pose proof (gotos_compile_image src1 _ Hs Hbal Hcps) as Hcpg.
  simpl in Hwf, Hcpg.
  unfold computed_gotos.runFile, run_with in Hrun.
  change (CodePlanter.plantProgram computed_gotos.opcode_map computed_gotos.dummy src1
            (CodePlanter.mk (program new_Engine) []))
    with (computed_gotos.compile src1) in Hrun.
  rewrite Hcpg in Hrun. simpl in Hrun.
  destruct (exec _ fuel1 _) as [m1| |]; try done.
  inversion Hrun; subst r1; clear Hrun. simpl in *.
  split; [done|]. unfold reruns_first. simpl.
  set (p1 := map_opcode label_of <$> ps) in *.
  destruct (CodePlanter.plantProgram _ _ src2 _) as [cp2|f] eqn:Hcp2.
  2:{ unfold run_with. simpl. by rewrite Hcp2. }
  destruct (plantProgram_extends computed_gotos.opcode_map computed_gotos.dummy
              (computed_gotos.address_of computed_gotos.HALT) eq_refl
              src2 p1 cp2 Hf2 Hcp2) as [ext Hext].
  split; [by exists ext|].
  unfold run_with. simpl. rewrite Hcp2, Hext.
  rewrite gotos_exec_app; [done|].
  unfold p1.
  rewrite (exec_ext (switch_.step ps) (computed_gotos.step (map_opcode label_of <$> ps)))
    by apply gotos_step_image.
  pose proof (switch_exec_safe ps fuel2 (mkMachine 0 0 (mem m1) in2 []) Hwf) as Hsafe.
  intros Hcr. rewrite Hcr in Hsafe. discriminate Hsafe.
  simpl. apply layout_head. intros Hnil. destruct Hwf as [_ _ _ Hh].
  rewrite Hnil in Hh. done.
Qed.

(** C10: after a first call of a run method on a fresh engine, for a
    balanced text, has returned, a second call on that engine does not
    start afresh.  Its planter appends to the program of the first call,
    which stays in front; its dispatch loop starts at slot 0 and so runs
    the program of the first call again, up to its [HALT]; and it runs it
    on the memory that the first call has left.  This is so for
    [runMacros] of [Switch.cpp] and for [runFile] of [ComputedGotos.cpp],
    which its test calls three times on one engine. *)
Theorem second_call_reruns_first (src1 src2 : list ascii) (in1 in2 : list Z)
    (fuel1 fuel2 : nat) :
  short src1 -> balanced src1 ->
  (forall r1,
     switch_.runMacros new_Engine src1 in1 fuel1 = Returned r1 ->
     fits (program (engine r1)) src2 ->
     switch_.compile src1 = Ok (CodePlanter.mk (program (engine r1)) []) /\
     reruns_first switch_.opcode_map switch_.dummy switch_.step
       (engine r1) src2 in2 fuel2) /\
  (forall r1,
     computed_gotos.runFile new_Engine src1 in1 fuel1 = Returned r1 ->
     fits (program (engine r1)) src2 ->
     computed_gotos.compile src1 = Ok (CodePlanter.mk (program (engine r1)) []) /\
     reruns_first computed_gotos.opcode_map computed_gotos.dummy
       computed_gotos.step (engine r1) src2 in2 fuel2).
Proof.
  intros Hs Hbal. split; intros r1 Hrun Hf2.
  - by apply (switch_second_call src1 src2 in1 in2 fuel1 fuel2 r1).
  - by apply (gotos_second_call src1 src2 in1 in2 fuel1 fuel2 r1).
Qed.

Lemma second_call_reruns_first_witness :
  switch_.compile (bf "+.")
  = Ok (CodePlanter.mk
          [I_opcode switch_.INCR; I_opcode switch_.PUT; I_opcode switch_.HALT] []) /\
  reruns_first switch_.opcode_map switch_.dummy switch_.step
    (mkEngine [I_opcode switch_.INCR; I_opcode switch_.PUT; I_opcode switch_.HALT]
              (vset fresh_memory 0 1))
    (bf "-") [] 5.
Proof.
  apply (proj1 (second_call_reruns_first (bf "+.") (bf "-") [] [] 3 5
                  ltac:(vm_compute; reflexivity) ltac:(reflexivity))
           (mkRan (mkEngine [I_opcode switch_.INCR; I_opcode switch_.PUT;
                             I_opcode switch_.HALT]
                            (vset fresh_memory 0 1)) [1] [])).
  - vm_cast_no_check
      (eq_refl (Returned
         (mkRan (mkEngine [I_opcode switch_.INCR; I_opcode switch_.PUT;
                           I_opcode switch_.HALT]
                          (vset fresh_memory 0 1)) [1] []))).
  - vm_compute; reflexivity.
Defined.

(** The same text run twice on one engine: the first call writes 1, the
    second runs the first program again on the cell that holds 1 and
    writes 2, and the program has grown to twice its length. *)
Example second_call_example :
  forall r1, switch_.runMacros new_Engine (bf "+.") [] 3 = Returned r1 ->
    written r1 = [1] /\
    written_by (switch_.runMacros (engine r1) (bf "+.") [] 3) = Some [2] /\
    (program <$> (engine <$>
       match switch_.runMacros (engine r1) (bf "+.") [] 3 with
       | Returned r2 => Some r2
       | _ => None
       end))
    = Some [I_opcode switch_.INCR; I_opcode switch_.PUT; I_opcode switch_.HALT;
            I_opcode switch_.INCR; I_opcode switch_.PUT; I_opcode switch_.HALT].
Proof.
  intros r1 H.
  assert (Hr : Returned r1
               = Returned (mkRan (mkEngine [I_opcode switch_.INCR; I_opcode switch_.PUT;
                                            I_opcode switch_.HALT]
                                           (vset fresh_memory 0 1)) [1] [])).
  { rewrite <- H. vm_cast_no_check (eq_refl (switch_.runMacros new_Engine (bf "+.") [] 3)). }
  inversion Hr; subst r1. repeat split; vm_compute; reflexivity.
Qed.

(** ** Determinism *)

(** The program that a first call leaves is one that the dispatch loop,
    started at slot 0, never leaves. *)
Lemma switch_first_program src1 in1 fuel1 r1 :
  short src1 -> balanced src1 ->
  switch_.runMacros new_Engine src1 in1 fuel1 = Returned r1 ->
  forall fuel m, pc m = 0 ->
    exec (switch_.step (program (engine r1))) fuel m <> Crashed PcRange.
Proof.
  intros Hs Hbal Hrun fuel m Hpc.
  pose proof (short_fits (I := Instruction switch_.OpCode) src1 Hs) as Hf.
  unfold switch_.runMacros, run_with in Hrun.
  change (CodePlanter.plantProgram switch_.opcode_map switch_.dummy src1
            (CodePlanter.mk (program new_Engine) []))
    with (switch_.compile src1) in Hrun.
  destruct (switch_.compile src1) as [cp|] eqn:Hcp; [|done].
  destruct (plantProgram_well_formed switch_.opcode_map switch_.dummy
              switch_.OPEN switch_.CLOSE eq_refl eq_refl
              switch_.takes_operand switch_map_kind switch_.HALT eq_refl
              src1 _ Hf Hbal Hcp) as [Hwf _].
  destruct (exec _ fuel1 _) as [m1| |]; try done.
  inversion Hrun; subst r1; clear Hrun. simpl.
  pose proof (switch_exec_safe (CodePlanter.program cp) fuel m Hwf) as Hsafe.
  intros Hcr. rewrite Hcr in Hsafe. discriminate Hsafe.
  rewrite Hpc. apply layout_head. intros Hnil. destruct Hwf as [_ _ _ Hh].
  rewrite Hnil in Hh. done.
Qed.

Lemma gotos_first_program src1 in1 fuel1 r1 :
  short src1 -> balanced src1 ->
  computed_gotos.runFile new_Engine src1 in1 fuel1 = Returned r1 ->
  forall fuel m, pc m = 0 ->
    exec (computed_gotos.step (program (engine r1))) fuel m <> Crashed PcRange.
Proof.
  intros Hs Hbal Hrun fuel m Hpc.
  pose proof (short_fits (I := Instruction switch_.OpCode) src1 Hs) as Hf.
  pose proof (plantProgram_nesting switch_.opcode_map switch_.dummy
                switch_.OPEN switch_.CLOSE eq_refl eq_refl switch_.HALT eq_refl
                src1 [] Hf) as HS.
  rewrite Hbal in HS. destruct HS as (ps & ixs & Hcps & _).
  fold (switch_.compile src1) in Hcps.
  destruct (plantProgram_well_formed switch_.opcode_map switch_.dummy
              switch_.OPEN switch_.CLOSE eq_refl eq_refl
              switch_.takes_operand switch_map_kind switch_.HALT eq_refl
              src1 _ Hf Hbal Hcps) as [Hwf _].
  pose proof (gotos_compile_image src1 _ Hs Hbal Hcps) as Hcpg.
  simpl in Hwf, Hcpg.
  unfold computed_gotos.runFile, run_with in Hrun.
  change (CodePlanter.plantProgram computed_gotos.opcode_map computed_gotos.dummy src1
            (CodePlanter.mk (program new_Engine) []))
    with (computed_gotos.compile src1) in Hrun.
  rewrite Hcpg in Hrun. simpl in Hrun.
  destruct (exec _ fuel1 _) as [m1| |]; try done.
  inversion Hrun; subst r1; clear Hrun. simpl.
  rewrite (exec_ext (switch_.step ps) (computed_gotos.step (map_opcode label_of <$> ps)))
    by apply gotos_step_image.
  pose proof (switch_exec_safe ps fuel m Hwf) as Hsafe.
  intros Hcr. rewrite Hcr in Hsafe. discriminate Hsafe.
  rewrite Hpc. apply layout_head. intros Hnil. destruct Hwf as [_ _ _ Hh].
  rewrite Hnil in Hh. done.
Qed.


Section RunAgain.
Context {OpCode : Type}.
Variable opcode_map : ascii -> option OpCode.
Variable dummy : Instruction OpCode.
Variable step : list (Instruction OpCode) -> Machine -> Step.
Variable halt : OpCode.
Hypothesis map_halt : opcode_map "000"%char = Some halt.
Hypothesis exec_app : forall p ext fuel m,
  exec (step p) fuel m <> Crashed PcRange ->
  exec (step (p ++ ext)) fuel m = exec (step p) fuel m.


End RunAgain.




(** ** Input *)

(** C6: [GET] reads one character of the input and stores it, as a
    [num], in the current cell; when the input is at its end it writes
    nothing, into no cell.  So [,.] run on no input writes the byte 0 and
    leaves the tape as it was.  This is the [GET] of the switch of
    [Switch.cpp] and of the labels of [ComputedGotos.cpp]. *)
Theorem input_at_eof_leaves_cell (m : Machine) :
  (forall p, vget p (pc m) = Some (I_opcode switch_.GET) ->
     (cin m = [] -> switch_.step p m = Next (set_pc (pc m + 1) m)) /\
     (forall ch rest c, cin m = ch :: rest -> deref m = Some c ->
        0 <= ch < 256 ->
        switch_.step p m
        = Next (mkMachine (pc m + 1) (loc m) (vset (mem m) (loc m) ch)
                          rest (outStream m)))) /\
  (forall p,
     vget p (pc m) = Some (I_opcode (computed_gotos.address_of computed_gotos.GET)) ->
     (cin m = [] -> computed_gotos.step p m = Next (set_pc (pc m + 1) m)) /\
     (forall ch rest c, cin m = ch :: rest -> deref m = Some c ->
        0 <= ch < 256 ->
        computed_gotos.step p m
        = Next (mkMachine (pc m + 1) (loc m) (vset (mem m) (loc m) ch)
                          rest (outStream m)))) /\
  switch_.runMacros new_Engine (bf ",.") [] 3
  = Returned (mkRan (mkEngine [I_opcode switch_.GET; I_opcode switch_.PUT;
                               I_opcode switch_.HALT] fresh_memory) [0] []) /\
  written_by (computed_gotos.runFile new_Engine (bf ",.") [] 3) = Some [0] /\
  written_by (switch_.runMacros new_Engine (bf ",.") [65] 3) = Some [65].
Proof.
  split; [|split; [|split; [|split]]].
  - intros p Hp. unfold switch_.step. rewrite Hp. unfold do_get. simpl. split.
    + by intros ->.
    + intros ch rest c -> Hc Hch. unfold deref in *. simpl. rewrite Hc.
      unfold store. simpl. by rewrite to_num_small.
  - intros p Hp. unfold computed_gotos.step. rewrite Hp.
    unfold computed_gotos.at_label, do_get. simpl. split.
    + by intros ->.
    + intros ch rest c -> Hc Hch. unfold deref in *. simpl. rewrite Hc.
      unfold store. simpl. by rewrite to_num_small.
  - vm_cast_no_check
      (eq_refl (Returned (mkRan (mkEngine [I_opcode switch_.GET; I_opcode switch_.PUT;
                                           I_opcode switch_.HALT] fresh_memory)
                                [0] []))).
  - vm_compute; reflexivity.
  - vm_compute; reflexivity.
Qed.

Lemma input_at_eof_leaves_cell_witness :
  switch_.step [I_opcode switch_.GET; I_opcode switch_.HALT]
    (mkMachine 0 0 [7] [] [])
  = Next (mkMachine 1 0 [7] [] []) /\
  switch_.step [I_opcode switch_.GET; I_opcode switch_.HALT]
    (mkMachine 0 0 [7] [65; 66] [])
  = Next (mkMachine 1 0 [65] [66] []).
Proof.
  pose proof (proj1 (input_at_eof_leaves_cell (mkMachine 0 0 [7] [] []))
                [I_opcode switch_.GET; I_opcode switch_.HALT] eq_refl) as [H1 _].
  pose proof (proj1 (input_at_eof_leaves_cell (mkMachine 0 0 [7] [65; 66] []))
                [I_opcode switch_.GET; I_opcode switch_.HALT] eq_refl) as [_ H2].
  split.
  - exact (H1 eq_refl).
  - exact (H2 65 [66] 7 eq_refl eq_refl ltac:(lia)).
Defined.

(** ** Cells *)

Lemma bytes_vset t i c : bytes t -> bytes (vset t i (to_num c)).
Proof.
  unfold bytes, vset. intros H. apply Forall_insert; [done|apply to_num_range].
Qed.

Lemma bytes_fresh : bytes fresh_memory.
Proof. unfold bytes, fresh_memory. by apply Forall_replicate. Qed.

Lemma switch_step_bytes p m :
  bytes (mem m) ->
  match switch_.step p m with
  | Next m' | Done m' => bytes (mem m')
  | Stuck _ => True
  end.
Proof.
  intros Hb. unfold switch_.step.
  destruct (vget p (pc m)) as [[[]|]|]; simpl; try done.
  - unfold do_add, deref. simpl. destruct (vget _ _); [|done].
    by apply bytes_vset.
  - unfold do_add, deref. simpl. destruct (vget _ _); [|done].
    by apply bytes_vset.
  - unfold do_jump. simpl. destruct (vget p _) as [[|]|]; try done.
    unfold deref. simpl. destruct (vget _ _); [|done]. by destruct (is_zero _).
  - unfold do_jump. simpl. destruct (vget p _) as [[|]|]; try done.
    unfold deref. simpl. destruct (vget _ _); [|done]. by destruct (not_zero _).
  - unfold do_put, deref. simpl. by destruct (vget _ _).
  - unfold do_get, deref. simpl. destruct (cin m); [done|]. simpl.
    destruct (vget _ _); [|done]. by apply bytes_vset.
Qed.

Lemma switch_exec_bytes p fuel : forall m m',
  bytes (mem m) -> exec (switch_.step p) fuel m = Returned m' -> bytes (mem m').
Proof.
  induction fuel as [|fuel IH]; intros m m' Hb Hex; simpl in Hex; [done|].
  pose proof (switch_step_bytes p m Hb) as Hst.
  destruct (switch_.step p m); [by eapply IH| |done].
  by inversion Hex; subst.
Qed.

(** C8: a cell is an [unsigned char].  [INCR] adds 1 and [DECR] takes 1
    away, modulo 256; whatever runs, every cell of the tape stays between
    0 and 255; and 256 [+] and a [.], on the cell that starts at 0, write
    the one byte 0. *)
Theorem cells_wrap_around :
  (forall p m c,
     vget p (pc m) = Some (I_opcode switch_.INCR) -> deref m = Some c ->
     switch_.step p m
     = Next (mkMachine (pc m + 1) (loc m)
               (vset (mem m) (loc m) ((c + 1) mod 256)) (cin m) (outStream m))) /\
  (forall p m c,
     vget p (pc m) = Some (I_opcode switch_.DECR) -> deref m = Some c ->
     switch_.step p m
     = Next (mkMachine (pc m + 1) (loc m)
               (vset (mem m) (loc m) ((c - 1) mod 256)) (cin m) (outStream m))) /\
  (forall src input fuel r,
     switch_.runMacros new_Engine src input fuel = Returned r ->
     bytes (memory (engine r))) /\
  switch_.runMacros new_Engine (replicate 256 "+"%char ++ bf ".") [] 258
  = Returned (mkRan (mkEngine (replicate 256 (I_opcode switch_.INCR)
                                 ++ [I_opcode switch_.PUT; I_opcode switch_.HALT])
                              fresh_memory) [0] []).
Proof.
  split; [|split; [|split]].
  - intros p m c Hp Hc. unfold switch_.step. rewrite Hp.
    unfold do_add, deref in *. simpl. by rewrite Hc.
  - intros p m c Hp Hc. unfold switch_.step. rewrite Hp.
    unfold do_add, deref in *. simpl. by rewrite Hc.
  - intros src input fuel r Hrun. unfold switch_.runMacros, run_with in Hrun.
    destruct (CodePlanter.plantProgram _ _ _ _) as [cp|]; [|done].
    destruct (exec _ _ _) as [m| |] eqn:Hex; try done.
    inversion Hrun; subst r. simpl.
    apply (switch_exec_bytes _ _ _ _ (bytes_fresh : bytes (mem (mkMachine 0 0 _ _ _)))
             Hex).
  - vm_cast_no_check
      (eq_refl (Returned
         (mkRan (mkEngine (replicate 256 (I_opcode switch_.INCR)
                             ++ [I_opcode switch_.PUT; I_opcode switch_.HALT])
                          fresh_memory) [0] []))).
Qed.

Lemma cells_wrap_around_witness :
  switch_.step [I_opcode switch_.INCR; I_opcode switch_.HALT]
    (mkMachine 0 0 [255] [] [])
  = Next (mkMachine 1 0 [0] [] []) /\
  switch_.step [I_opcode switch_.DECR; I_opcode switch_.HALT]
    (mkMachine 0 0 [0] [] [])
  = Next (mkMachine 1 0 [255] [] []).
Proof.
  split.
  - exact (proj1 cells_wrap_around
             [I_opcode switch_.INCR; I_opcode switch_.HALT]
             (mkMachine 0 0 [255] [] []) 255 eq_refl eq_refl).
  - exact (proj1 (proj2 cells_wrap_around)
             [I_opcode switch_.DECR; I_opcode switch_.HALT]
             (mkMachine 0 0 [0] [] []) 0 eq_refl eq_refl).
Defined.

(** ** The branches *)

Lemma do_jump_spec {OpCode : Type} (p : list (Instruction OpCode)) test m n c :
  vget p (pc m + 1) = Some (I_operand n) -> deref m = Some c ->
  do_jump p test (set_pc (pc m + 1) m)
  = Next (set_pc (if test c then n else pc m + 2) m).
Proof.
  intros Hn Hc. unfold do_jump, deref in *. simpl. rewrite Hn, Hc.
  destruct (test c); unfold set_pc; simpl; [done|].
  do 2 f_equal. lia.
Qed.

(** C4, on the code: in the switch of [Switch.cpp], at the labels of
    [ComputedGotos.cpp] and in the closures of [main2.cpp], [OPEN] reads
    its operand and jumps to it when the cell is 0, and [CLOSE] reads its
    operand and jumps to it when the cell is not 0; at the labels of
    [direct_threading_demo.cpp], [CLOSE] jumps when the cell is 0, like
    [OPEN], and falls through when it is not. *)
Theorem close_branch_of_each_engine (m : Machine) (n c : Z) :
  deref m = Some c ->
  (forall p, vget p (pc m + 1) = Some (I_operand n) ->
     (vget p (pc m) = Some (I_opcode switch_.OPEN) ->
      switch_.step p m = Next (set_pc (if c =? 0 then n else pc m + 2) m)) /\
     (vget p (pc m) = Some (I_opcode switch_.CLOSE) ->
      switch_.step p m = Next (set_pc (if c =? 0 then pc m + 2 else n) m))) /\
  (forall p, vget p (pc m + 1) = Some (I_operand n) ->
     (vget p (pc m) = Some (I_opcode (computed_gotos.address_of computed_gotos.OPEN)) ->
      computed_gotos.step p m = Next (set_pc (if c =? 0 then n else pc m + 2) m) /\
      two.step_lambdas p m = Next (set_pc (if c =? 0 then n else pc m + 2) m) /\
      direct_threading_demo.step p m
      = Next (set_pc (if c =? 0 then n else pc m + 2) m)) /\
     (vget p (pc m) = Some (I_opcode (computed_gotos.address_of computed_gotos.CLOSE)) ->
      computed_gotos.step p m = Next (set_pc (if c =? 0 then pc m + 2 else n) m) /\
      two.step_lambdas p m = Next (set_pc (if c =? 0 then pc m + 2 else n) m) /\
      direct_threading_demo.step p m
      = Next (set_pc (if c =? 0 then n else pc m + 2) m))).
Proof.
  intros Hc. split; intros p Hn.
  all: pose proof (do_jump_spec p is_zero m n c Hn Hc) as Hz.
  all: pose proof (do_jump_spec p not_zero m n c Hn Hc) as Hnz.
  all: assert (Hnz' : do_jump p not_zero (set_pc (pc m + 1) m)
                      = Next (set_pc (if c =? 0 then pc m + 2 else n) m))
         by (rewrite Hnz; unfold not_zero; by destruct (c =? 0)).
  - split; intros Hp; unfold switch_.step; by rewrite Hp.
  - split; intros Hp.
    + assert (H1 : computed_gotos.step p m = do_jump p is_zero (set_pc (pc m + 1) m))
        by (unfold computed_gotos.step; by rewrite Hp).
      assert (H2 : two.step_lambdas p m = do_jump p is_zero (set_pc (pc m + 1) m))
        by (unfold two.step_lambdas;
            change (vget p (pc m)) with (vget (A := Instruction computed_gotos.OpCode) p (pc m));
            by rewrite Hp).
      assert (H3 : direct_threading_demo.step p m
                   = do_jump p is_zero (set_pc (pc m + 1) m))
        by (unfold direct_threading_demo.step;
            change (vget p (pc m)) with (vget (A := Instruction computed_gotos.OpCode) p (pc m));
            by rewrite Hp).
      rewrite H1, H2, H3. by rewrite Hz.
    + assert (H1 : computed_gotos.step p m = do_jump p not_zero (set_pc (pc m + 1) m))
        by (unfold computed_gotos.step; by rewrite Hp).
      assert (H2 : two.step_lambdas p m = do_jump p not_zero (set_pc (pc m + 1) m))
        by (unfold two.step_lambdas;
            change (vget p (pc m)) with (vget (A := Instruction computed_gotos.OpCode) p (pc m));
            by rewrite Hp).
      assert (H3 : direct_threading_demo.step p m
                   = do_jump p is_zero (set_pc (pc m + 1) m))
        by (unfold direct_threading_demo.step;
            change (vget p (pc m)) with (vget (A := Instruction computed_gotos.OpCode) p (pc m));
            by rewrite Hp).
      rewrite H1, H2, H3. by rewrite Hz, Hnz'.
Qed.

Lemma close_branch_of_each_engine_witness :
  (computed_gotos.step
     [I_opcode (computed_gotos.address_of computed_gotos.CLOSE); I_operand 7]
     (mkMachine 0 0 [0] [] [])
   = Next (mkMachine 2 0 [0] [] []) /\
   direct_threading_demo.step
     [I_opcode (computed_gotos.address_of computed_gotos.CLOSE); I_operand 7]
     (mkMachine 0 0 [0] [] [])
   = Next (mkMachine 7 0 [0] [] [])) /\
  (computed_gotos.step
     [I_opcode (computed_gotos.address_of computed_gotos.CLOSE); I_operand 7]
     (mkMachine 0 0 [1] [] [])
   = Next (mkMachine 7 0 [1] [] []) /\
   direct_threading_demo.step
     [I_opcode (computed_gotos.address_of computed_gotos.CLOSE); I_operand 7]
     (mkMachine 0 0 [1] [] [])
   = Next (mkMachine 2 0 [1] [] [])).
Proof.
  set (p := [I_opcode (computed_gotos.address_of computed_gotos.CLOSE); I_operand 7]).
  pose proof (proj2 (proj2 (close_branch_of_each_engine
                              (mkMachine 0 0 [0] [] []) 7 0 eq_refl) p eq_refl)
                eq_refl) as (H1 & _ & H2).
  pose proof (proj2 (proj2 (close_branch_of_each_engine
                              (mkMachine 0 0 [1] [] []) 7 1 eq_refl) p eq_refl)
                eq_refl) as (H3 & _ & H4).
  split; split; assumption.
Defined.

(** ** The dispatch strategies *)

(** C1, on the code: on the text [+[-].] and no input, the switch of
    [Switch.cpp], the labels of [ComputedGotos.cpp] and the closures of
    [main2.cpp] write the byte 0 and leave 0 in the first cell, and the
    labels of [direct_threading_demo.cpp] write the byte 255 and leave 255
    there; the four have planted the same slots. *)
Theorem demo_engine_diverges :
  written_by (switch_.runMacros new_Engine (bf "+[-].") [] 20) = Some [0] /\
  written_by (computed_gotos.runFile new_Engine (bf "+[-].") [] 20) = Some [0] /\
  written_by (two.runFileLambdas new_Engine (bf "+[-].") [] 20) = Some [0] /\
  written_by (direct_threading_demo.runFile new_Engine (bf "+[-].") [] 20)
  = Some [255] /\
  cell_after (switch_.runMacros new_Engine (bf "+[-].") [] 20) 0 = Some 0 /\
  cell_after (direct_threading_demo.runFile new_Engine (bf "+[-].") [] 20) 0
  = Some 255 /\
  direct_threading_demo.compile (bf "+[-].") = computed_gotos.compile (bf "+[-].").
Proof. repeat split; vm_compute; reflexivity. Qed.

(** X4: the three strategies that the tests of the repository compare write
    the same bytes, leave the same tape and read the same input, whatever
    the balanced text, the input and the fuel. *)
Lemma dispatch_strategies_agree src input fuel :
  short src -> balanced src ->
  observe (computed_gotos.runFile new_Engine src input fuel)
  = observe (switch_.runMacros new_Engine src input fuel) /\
  observe (two.runFileLambdas new_Engine src input fuel)
  = observe (switch_.runMacros new_Engine src input fuel).
Proof.
  intros Hs Hbal.
  pose proof (plantProgram_nesting switch_.opcode_map switch_.dummy
                switch_.OPEN switch_.CLOSE eq_refl eq_refl switch_.HALT eq_refl
                src [] (short_fits src Hs)) as HS.
  rewrite Hbal in HS. destruct HS as (p1 & ix1 & Hcp & _).
  fold (switch_.compile src) in Hcp. set (cp := CodePlanter.mk p1 ix1) in *.
  pose proof (gotos_compile_image src cp Hs Hbal Hcp) as Hg.
  unfold computed_gotos.runFile, two.runFileLambdas, switch_.runMacros, run_with.
  change (CodePlanter.plantProgram switch_.opcode_map switch_.dummy src
            (CodePlanter.mk (program new_Engine) []))
    with (switch_.compile src).
  change (CodePlanter.plantProgram two.opcode_map two.dummy src
            (CodePlanter.mk (program new_Engine) []))
    with (computed_gotos.compile src).
  change (CodePlanter.plantProgram computed_gotos.opcode_map computed_gotos.dummy src
            (CodePlanter.mk (program new_Engine) []))
    with (computed_gotos.compile src).
  rewrite Hcp, Hg. simpl.
  rewrite (exec_ext (switch_.step (CodePlanter.program cp))
             (computed_gotos.step (map_opcode label_of <$> CodePlanter.program cp)))
    by apply gotos_step_image.
  rewrite (exec_ext (switch_.step (CodePlanter.program cp))
             (two.step_lambdas (map_opcode label_of <$> CodePlanter.program cp)))
    by (intros m; rewrite lambdas_step; apply gotos_step_image).
  by destruct (exec _ _ _).
Qed.


(** * Further properties of the code *)

(** ** The character table of direct_threading_demo.cpp *)

(** X1: [OperatorToOpCodeIndex] returns an index below [numberOfOpCodes],
    at which the array has the opcode that [plantChar] plants, or the
    greatest [size_t], for which [plantChar] returns at its guard.  It
    never returns [numberOfOpCodes] itself, the one index that the guard
    [opcodeIndex > numberOfOpCodes] would let through to a read behind the
    array. *)
Theorem OperatorToOpCodeIndex_in_array (ch : ascii) :
  direct_threading_demo.OperatorToOpCodeIndex ch
    <> direct_threading_demo.numberOfOpCodes /\
  ((0 <= direct_threading_demo.OperatorToOpCodeIndex ch
      < direct_threading_demo.numberOfOpCodes /\
    exists op,
      vget direct_threading_demo.opcode_array
        (direct_threading_demo.OperatorToOpCodeIndex ch) = Some op /\
      direct_threading_demo.opcode_map ch = Some op) \/
   (direct_threading_demo.OperatorToOpCodeIndex ch
      = direct_threading_demo.size_t_max /\
    direct_threading_demo.opcode_map ch = None)).
Proof.
  destruct ch as [[] [] [] [] [] [] [] []];
    (split; [discriminate|]);
    first [ right; split; reflexivity
          | left; split; [split; [discriminate|reflexivity]|];
            eexists; split; reflexivity ].
Qed.

(** Two planters whose maps agree on every character and whose dummies
    are the same plant the same. *)
Lemma plantChars_same_map {OpCode : Type}
    (map1 map2 : ascii -> option OpCode) (dummy : Instruction OpCode) :
  (forall ch, map1 ch = map2 ch) ->
  forall src cp,
    CodePlanter.plantChars map1 dummy src cp
    = CodePlanter.plantChars map2 dummy src cp.
Proof.
  intros Hm src. induction src as [|ch src IH]; intros cp; simpl; [done|].
  assert (Hc : CodePlanter.plantChar map1 dummy ch cp
               = CodePlanter.plantChar map2 dummy ch cp).
  { unfold CodePlanter.plantChar. by rewrite Hm. }
  rewrite Hc. destruct (CodePlanter.plantChar map2 dummy ch cp); [apply IH|done].
Qed.

Lemma plantProgram_same_map {OpCode : Type}
    (map1 map2 : ascii -> option OpCode) (dummy : Instruction OpCode) :
  (forall ch, map1 ch = map2 ch) ->
  forall src cp,
    CodePlanter.plantProgram map1 dummy src cp
    = CodePlanter.plantProgram map2 dummy src cp.
Proof.
  intros Hm src cp. unfold CodePlanter.plantProgram.
  by rewrite (plantChars_same_map map1 map2 dummy Hm), Hm.
Qed.

(** X2: the planter of [direct_threading_demo.cpp], which finds its
    opcode through [OperatorToOpCodeIndex] and an array, plants for every
    text, behind every program, what the planter of [ComputedGotos.cpp]
    and [main2.cpp] plants, which finds it in a [std::map]; and it stops,
    where it stops, in the same way. *)
Theorem demo_planter_is_gotos_planter (src : list ascii)
    (cp : CodePlanter.state computed_gotos.OpCode) :
  CodePlanter.plantProgram direct_threading_demo.opcode_map
    direct_threading_demo.dummy src cp
  = CodePlanter.plantProgram computed_gotos.opcode_map
      computed_gotos.dummy src cp.
Proof. apply plantProgram_same_map, demo_map_eq. Qed.

(** ** The closures of main2.cpp *)

(** X3: on an engine that has planted nothing yet, whatever its tape
    holds, [runFileLambdas] and [runFile] of [main2.cpp] end in the same
    way: they return or stop together and, when they return, they have
    written the same bytes, left the same tape and left the same input
    unread.  This holds for every text, balanced or not, and every input:
    what [TEST( DirectThreadedCode, NoChange )] asserts of one file, on
    its two fresh engines, holds of all. *)
Theorem lambdas_are_labels (tape : list Z) (src : list ascii)
    (input : list Z) (fuel : nat) :
  observe (two.runFileLambdas (mkEngine [] tape) src input fuel)
  = observe (two.runFile (mkEngine [] tape) src input fuel).
Proof.
  unfold two.runFileLambdas, two.runFile, run_with.
  destruct (CodePlanter.plantProgram _ _ _ _) as [cp|]; [|done].
  by rewrite (exec_ext (computed_gotos.step (CodePlanter.program cp))
                (two.step_lambdas (CodePlanter.program cp)))
    by apply lambdas_step.
Qed.

(** ** The three strategies on balanced texts *)

Lemma dispatch_strategies_agree_witness :
  observe (computed_gotos.runFile new_Engine (bf ",[.-]") [3] 20)
  = observe (switch_.runMacros new_Engine (bf ",[.-]") [3] 20) /\
  observe (two.runFileLambdas new_Engine (bf ",[.-]") [3] 20)
  = observe (switch_.runMacros new_Engine (bf ",[.-]") [3] 20).
Proof.
  apply (dispatch_strategies_agree (bf ",[.-]") [3] 20).
  - vm_compute; reflexivity.
  - reflexivity.
Defined.

(** ** What is planted, read back *)

Section ListingFacts.
Context {OpCode : Type}.
Variable opcode_map : ascii -> option OpCode.
Variable dummy : Instruction OpCode.
Variable takes_operand : OpCode -> bool.
Hypothesis map_kind : forall ch op,
  opcode_map ch = Some op ->
  takes_operand op = ((ch =? "[") || (ch =? "]"))%char.

Lemma listing_app p q : forall skip,
  listing takes_operand skip (p ++ q)
  = listing takes_operand skip p
      ++ listing takes_operand (open_ended takes_operand skip p) q.
Proof.
  induction p as [|i p IH]; intros skip; simpl; [done|].
  destruct skip; by rewrite IH.
Qed.

(** Writing into an operand slot changes nothing in the listing. *)
Lemma listing_insert p x : forall skip (k : nat),
  layout takes_operand skip p !! k = Some false ->
  listing takes_operand skip (<[k := x]> p) = listing takes_operand skip p.
Proof.
  induction p as [|i p IH]; intros skip k Hk; [done|].
  destruct k as [|k]; destruct skip; simpl in *; try done.
  - by rewrite (IH false k Hk).
  - by rewrite (IH _ k Hk).
Qed.

Lemma listing_vset skip p s x :
  vget (layout takes_operand skip p) s = Some false ->
  listing takes_operand skip (vset p s x) = listing takes_operand skip p.
Proof. intros [_ H]%vget_lookup. by apply listing_insert. Qed.

Lemma instructions_cons ch src :
  instructions opcode_map (ch :: src)
  = match opcode_map ch with
    | Some op => I_opcode op :: instructions opcode_map src
    | None => instructions opcode_map src
    end.
Proof. unfold instructions. simpl. by destruct (opcode_map ch). Qed.

Lemma plantChars_listing src : forall p ix cp',
  fits p src -> planting takes_operand p ix ->
  CodePlanter.plantChars opcode_map dummy src (CodePlanter.mk p ix) = Ok cp' ->
  listing takes_operand false (CodePlanter.program cp')
  = listing takes_operand false p ++ instructions opcode_map src.
Proof.
  induction src as [|ch src IH]; intros p ix cp' Hf Hp Heq; simpl in Heq.
  { inversion Heq; subst. simpl. by rewrite app_nil_r. }
  pose proof (fits_head _ _ _ Hf) as Hs.
  pose proof (plantChar_step opcode_map dummy ch p ix Hs
                (planting_stack_ok _ _ _ Hp)) as St.
  destruct (CodePlanter.plantChar opcode_map dummy ch _) as [[p1 ix1]|f] eqn:Hc;
    [|done].
  pose proof (planting_step opcode_map dummy takes_operand map_kind
                ch p ix _ Hs Hp Hc) as Hp1.
  destruct (plantChar_ok opcode_map dummy ch p ix _ Hs
              (planting_stack_ok _ _ _ Hp) Hc) as [_ Hsz].
  simpl in Hp1, Hsz. pose proof (width_range opcode_map ch).
  rewrite (IH p1 ix1 cp') by (done || (eapply fits_step; [done|lia])).
  rewrite instructions_cons.
  destruct Hp as [Hcl _ _ Hst].
  inversion St as [Hm|op Hm Ho Hcb|op He Hm|op He Hm Hix|op start rest He Hm Hix Hr];
    subst; rewrite Hm.
  - done.
  - rewrite listing_app, Hcl. simpl. by rewrite <- app_assoc.
  - rewrite listing_app, Hcl. simpl.
    rewrite (map_kind "["%char op Hm). simpl. by rewrite <- app_assoc.
  - rewrite listing_app.
    destruct (layout_vset takes_operand false p start
                (I_operand (vsize p + 2))) as [_ ->].
    { apply Hst, list_elem_of_here. }
    rewrite listing_vset by apply Hst, list_elem_of_here.
    rewrite Hcl. simpl. rewrite (map_kind "]"%char op Hm). simpl.
    by rewrite <- app_assoc.
Qed.

Variable halt : OpCode.
Hypothesis map_halt : opcode_map "000"%char = Some halt.

Lemma plantProgram_listing src cp :
  fits (@nil (Instruction OpCode)) src ->
  CodePlanter.plantProgram opcode_map dummy src (CodePlanter.mk [] []) = Ok cp ->
  listing takes_operand false (CodePlanter.program cp)
  = instructions opcode_map src ++ [I_opcode halt].
Proof.
  intros Hf Heq. rewrite (plantProgram_eq _ _ halt map_halt) in Heq.
  destruct (CodePlanter.plantChars _ _ _ _) as [[p ix]|] eqn:Hpl; [|done].
  inversion Heq; subst; clear Heq. simpl.
  pose proof (plantChars_planting opcode_map dummy takes_operand map_kind
                src [] [] _ Hf (planting_nil _) Hpl) as [Hcl _ _ _].
  pose proof (plantChars_listing src [] [] _ Hf (planting_nil _) Hpl) as HL.
  simpl in Hcl, HL. by rewrite listing_app, Hcl, HL.
Qed.

End ListingFacts.

(** X5: read slot by slot, with the operand behind every [OPEN] and
    [CLOSE] left out, the program that a fresh engine plants for a text is
    the opcodes of the characters of the text that the map has, in the
    order of the text, and one [HALT] behind them.  This holds whenever
    the planter returns, for a balanced text or not, in [Switch.cpp] and
    in [ComputedGotos.cpp]. *)
Theorem planted_program_lists_the_text (src : list ascii) :
  short src ->
  (forall cp, switch_.compile src = Ok cp ->
     listing switch_.takes_operand false (CodePlanter.program cp)
     = instructions switch_.opcode_map src ++ [I_opcode switch_.HALT]) /\
  (forall cp, computed_gotos.compile src = Ok cp ->
     listing computed_gotos.takes_operand false (CodePlanter.program cp)
     = instructions computed_gotos.opcode_map src
         ++ [I_opcode (computed_gotos.address_of computed_gotos.HALT)]).
Proof.
  intros Hs. split; intros cp Hcp.
  - by apply (plantProgram_listing switch_.opcode_map switch_.dummy
                switch_.takes_operand switch_map_kind switch_.HALT eq_refl
                src cp (short_fits src Hs)).
  - by apply (plantProgram_listing computed_gotos.opcode_map computed_gotos.dummy
                computed_gotos.takes_operand gotos_map_kind _ eq_refl
                src cp (short_fits src Hs)).
Qed.

Lemma planted_program_lists_the_text_witness :
  listing switch_.takes_operand false
    [I_opcode switch_.OPEN; I_operand 5; I_opcode switch_.DECR;
     I_opcode switch_.CLOSE; I_operand 2; I_opcode switch_.OPEN;
     switch_.dummy; I_opcode switch_.HALT]
  = instructions switch_.opcode_map (bf "[a-]b[")
      ++ [I_opcode switch_.HALT].
Proof.
  apply (proj1 (planted_program_lists_the_text (bf "[a-]b[")
                  ltac:(vm_compute; reflexivity))
           (CodePlanter.mk
              [I_opcode switch_.OPEN; I_operand 5; I_opcode switch_.DECR;
               I_opcode switch_.CLOSE; I_operand 2; I_opcode switch_.OPEN;
               switch_.dummy; I_opcode switch_.HALT] [6])).
  reflexivity.
Defined.

(** ** How much is planted *)

Section SizeFacts.
Context {OpCode : Type}.
Variable opcode_map : ascii -> option OpCode.
Variable dummy : Instruction OpCode.

(** Whenever [plantChar] returns, the program has grown by the width of
    the character, whatever the sizes. *)
Lemma plantChar_size ch cp cp' :
  CodePlanter.plantChar opcode_map dummy ch cp = Ok cp' ->
  vsize (CodePlanter.program cp')
  = vsize (CodePlanter.program cp) + width opcode_map ch.
Proof.
  unfold CodePlanter.plantChar, width.
  destruct (opcode_map ch) as [op|]; [|intros H; inversion H; lia].
  destruct (ch =? "[")%char; simpl.
  { intros H; inversion H; subst; simpl. rewrite !vsize_app.
    change (vsize [_]) with 1. lia. }
  destruct (ch =? "]")%char; simpl.
  2:{ intros H; inversion H; subst; simpl. rewrite vsize_app.
      by change (vsize [_]) with 1. }
  destruct (CodePlanter.indexes cp) as [|start rest]; [done|].
  destruct (in_range _ start); [|done].
  intros H; inversion H; subst; simpl.
  rewrite vsize_app, vsize_vset, vsize_app. change (vsize [_]) with 1. lia.
Qed.

Lemma plantChars_size src : forall cp cp',
  CodePlanter.plantChars opcode_map dummy src cp = Ok cp' ->
  vsize (CodePlanter.program cp')
  = vsize (CodePlanter.program cp) + slots opcode_map src.
Proof.
  induction src as [|ch src IH]; intros cp cp' Heq; simpl in *.
  { inversion Heq; lia. }
  destruct (CodePlanter.plantChar opcode_map dummy ch cp) as [cp1|] eqn:Hc; [|done].
  rewrite (IH _ _ Heq), (plantChar_size _ _ _ Hc). lia.
Qed.

Lemma plantProgram_size src cp cp' :
  CodePlanter.plantProgram opcode_map dummy src cp = Ok cp' ->
  vsize (CodePlanter.program cp')
  = vsize (CodePlanter.program cp) + slots opcode_map src + 1.
Proof.
  unfold CodePlanter.plantProgram.
  destruct (CodePlanter.plantChars _ _ _ _) as [cp1|] eqn:Hpl; [|done].
  destruct (opcode_map "000"%char); [|done].
  intros H; inversion H; subst; simpl.
  rewrite vsize_app, (plantChars_size _ _ _ Hpl). by change (vsize [_]) with 1.
Qed.

End SizeFacts.

(** X6: [plantProgram] appends.  The program that it finds in the engine
    is the front of the program that it leaves, slot for slot, and what it
    has put behind it is as long as the text has slots, and one more for
    the [HALT]. *)
Theorem planter_appends (src : list ascii) :
  (forall p cp, fits p src ->
     CodePlanter.plantProgram switch_.opcode_map switch_.dummy src
       (CodePlanter.mk p []) = Ok cp ->
     exists ext, CodePlanter.program cp = p ++ ext /\
                 vsize ext = slots switch_.opcode_map src + 1) /\
  (forall p cp, fits p src ->
     CodePlanter.plantProgram computed_gotos.opcode_map computed_gotos.dummy src
       (CodePlanter.mk p []) = Ok cp ->
     exists ext, CodePlanter.program cp = p ++ ext /\
                 vsize ext = slots computed_gotos.opcode_map src + 1).
Proof.
  split; intros p cp Hf Hcp.
  - destruct (plantProgram_extends _ _ switch_.HALT eq_refl src p cp Hf Hcp)
      as [ext Hext].
    exists ext. split; [done|].
    pose proof (plantProgram_size _ _ _ _ _ Hcp) as Hsz.
    rewrite Hext, vsize_app in Hsz. simpl in Hsz. lia.
  - destruct (plantProgram_extends _ _ _ eq_refl src p cp Hf Hcp) as [ext Hext].
    exists ext. split; [done|].
    pose proof (plantProgram_size _ _ _ _ _ Hcp) as Hsz.
    rewrite Hext, vsize_app in Hsz. simpl in Hsz. lia.
Qed.

Lemma planter_appends_witness :
  exists ext,
    [I_opcode switch_.INCR; I_opcode switch_.HALT;
     I_opcode switch_.OPEN; I_operand 6; I_opcode switch_.CLOSE; I_operand 4;
     I_opcode switch_.HALT]
    = [I_opcode switch_.INCR; I_opcode switch_.HALT] ++ ext /\
    vsize ext = slots switch_.opcode_map (bf "[]") + 1.
Proof.
  apply (proj1 (planter_appends (bf "[]"))
           [I_opcode switch_.INCR; I_opcode switch_.HALT]
           (CodePlanter.mk
              [I_opcode switch_.INCR; I_opcode switch_.HALT;
               I_opcode switch_.OPEN; I_operand 6; I_opcode switch_.CLOSE;
               I_operand 4; I_opcode switch_.HALT] [])).
  - vm_compute; reflexivity.
  - reflexivity.
Defined.

(** ** What a dispatch loop leaves alone *)

Lemma bytes_app t u : bytes t -> bytes u -> bytes (t ++ u).
Proof. unfold bytes. intros. by apply Forall_app. Qed.

Lemma evolves_same m m' :
  mem m' = mem m -> outStream m' = outStream m -> cin m' = cin m ->
  evolves m m'.
Proof.
  intros Hm Ho Hc. split; [by rewrite Hm|]. split; [by rewrite Hm|]. split.
  - exists []. split; [by rewrite app_nil_r|]. intros _. constructor.
  - exists []. by rewrite Hc.
Qed.

Lemma evolves_refl m : evolves m m.
Proof. by apply evolves_same. Qed.

Lemma evolves_trans m1 m2 m3 : evolves m1 m2 -> evolves m2 m3 -> evolves m1 m3.
Proof.
  intros (Hl1 & Hb1 & (n1 & Ho1 & Hn1) & (u1 & Hc1))
         (Hl2 & Hb2 & (n2 & Ho2 & Hn2) & (u2 & Hc2)).
  split; [congruence|]. split; [auto|]. split.
  - exists (n1 ++ n2). split.
    + by rewrite Ho2, Ho1, app_assoc.
    + intros Hb. apply bytes_app; auto.
  - exists (u1 ++ u2). by rewrite Hc1, Hc2, app_assoc.
Qed.

Lemma evolves_set_pc n m : evolves m (set_pc n m).
Proof. by apply evolves_same. Qed.

Lemma evolves_set_loc l m : evolves m (set_loc l m).
Proof. by apply evolves_same. Qed.

Lemma do_add_evolves d m :
  match do_add d m with
  | Next m' | Done m' => evolves m m'
  | Stuck _ => True
  end.
Proof.
  unfold do_add. destruct (deref m); [|done]. simpl.
  split; [apply vsize_vset|]. split; [apply bytes_vset|]. split.
  - exists []. split; [by rewrite app_nil_r|]. intros _. constructor.
  - by exists [].
Qed.

Lemma do_put_evolves m :
  match do_put m with
  | Next m' | Done m' => evolves m m'
  | Stuck _ => True
  end.
Proof.
  unfold do_put, deref. destruct (vget (mem m) (loc m)) as [c|] eqn:Hc; [|done].
  simpl. split; [done|]. split; [done|]. split.
  - exists [c]. split; [done|]. intros Hb. constructor; [|constructor].
    unfold bytes in Hb. rewrite Forall_forall in Hb. apply Hb.
    apply vget_lookup in Hc as [_ Hc]. apply list_elem_of_In.
    by apply list_elem_of_lookup_2 in Hc.
  - by exists [].
Qed.

Lemma do_get_evolves m :
  match do_get m with
  | Next m' | Done m' => evolves m m'
  | Stuck _ => True
  end.
Proof.
  unfold do_get. destruct (cin m) as [|ch rest] eqn:Hcin; [apply evolves_refl|].
  unfold deref. simpl. destruct (vget (mem m) (loc m)); [|done]. simpl.
  split; [apply vsize_vset|]. split; [apply bytes_vset|]. split.
  - exists []. split; [by rewrite app_nil_r|]. intros _. constructor.
  - exists [ch]. by rewrite Hcin.
Qed.

Lemma do_jump_evolves {OpCode : Type} (p : list (Instruction OpCode)) test m :
  match do_jump p test m with
  | Next m' | Done m' => evolves m m'
  | Stuck _ => True
  end.
Proof.
  unfold do_jump. destruct (vget p (pc m)) as [[|n]|]; try done.
  unfold deref. simpl. destruct (vget (mem m) (loc m)); [|done].
  destruct (test z); by apply evolves_same.
Qed.

(** What holds of a block holds of it behind [pc++]. *)
Lemma evolves_after_fetch (body : Machine -> Step) m :
  (forall m1, match body m1 with
              | Next m' | Done m' => evolves m1 m'
              | Stuck _ => True
              end) ->
  match body (set_pc (pc m + 1) m) with
  | Next m' | Done m' => evolves m m'
  | Stuck _ => True
  end.
Proof.
  intros H. specialize (H (set_pc (pc m + 1) m)).
  destruct (body _); try done;
    (eapply evolves_trans; [apply (evolves_set_pc (pc m + 1))|done]).
Qed.

Lemma switch_step_evolves p m :
  match switch_.step p m with
  | Next m' | Done m' => evolves m m'
  | Stuck _ => True
  end.
Proof.
  unfold switch_.step. destruct (vget p (pc m)) as [[op|]|]; try done.
  destruct op.
  - apply (evolves_after_fetch (do_add 1)), do_add_evolves.
  - apply (evolves_after_fetch (do_add (-1))), do_add_evolves.
  - apply (evolves_after_fetch (fun m1 => Next (set_loc (loc m1 - 1) m1))).
    intros m1. apply evolves_set_loc.
  - apply (evolves_after_fetch (fun m1 => Next (set_loc (loc m1 + 1) m1))).
    intros m1. apply evolves_set_loc.
  - apply (evolves_after_fetch (do_jump p is_zero)), do_jump_evolves.
  - apply (evolves_after_fetch (do_jump p not_zero)), do_jump_evolves.
  - apply (evolves_after_fetch do_put), do_put_evolves.
  - apply (evolves_after_fetch do_get), do_get_evolves.
  - apply (evolves_after_fetch Done). intros m1. apply evolves_refl.
Qed.

Lemma gotos_step_evolves p m :
  match computed_gotos.step p m with
  | Next m' | Done m' => evolves m m'
  | Stuck _ => True
  end.
Proof.
  unfold computed_gotos.step. destruct (vget p (pc m)) as [[[|l]|]|]; try done.
  apply (evolves_after_fetch (computed_gotos.at_label p l)). intros m1.
  destruct l; simpl.
  - apply do_add_evolves.
  - apply do_add_evolves.
  - apply evolves_set_loc.
  - apply evolves_set_loc.
  - apply do_jump_evolves.
  - apply do_jump_evolves.
  - apply do_put_evolves.
  - apply do_get_evolves.
  - apply evolves_refl.
Qed.

Lemma exec_evolves (step : Machine -> Step) :
  (forall m, match step m with
             | Next m' | Done m' => evolves m m'
             | Stuck _ => True
             end) ->
  forall fuel m m', exec step fuel m = Returned m' -> evolves m m'.
Proof.
  intros Hstep fuel. induction fuel as [|fuel IH]; intros m m' Hex; [done|].
  simpl in Hex. specialize (Hstep m). destruct (step m) as [m1|m1|]; [| |done].
  - eapply evolves_trans; [done|by apply IH].
  - by inversion Hex; subst.
Qed.

Lemma run_with_evolves {OpCode : Type} opcode_map dummy
    (step : list (Instruction OpCode) -> Machine -> Step) :
  (forall p m, match step p m with
               | Next m' | Done m' => evolves m m'
               | Stuck _ => True
               end) ->
  forall e src input fuel r,
    run_with opcode_map dummy step e src input fuel = Returned r ->
    vsize (memory (engine r)) = vsize (memory e) /\
    (bytes (memory e) -> bytes (memory (engine r)) /\ bytes (written r)) /\
    exists used, input = used ++ unread r.
Proof.
  intros Hstep e src input fuel r Hrun. unfold run_with in Hrun.
  destruct (CodePlanter.plantProgram _ _ _ _) as [cp|]; [|done].
  destruct (exec _ _ _) as [m| |] eqn:Hex; try done.
  inversion Hrun; subst r; clear Hrun. simpl.
  destruct (exec_evolves _ (Hstep _) _ _ _ Hex)
    as (Hl & Hb & (new & Ho & Hn) & (used & Hc)).
  simpl in Hl, Hb, Ho, Hn, Hc. split; [done|]. split.
  - intros Hbe. split; [auto|]. rewrite Ho. simpl. auto.
  - by exists used.
Qed.

(** X7: a call of [runMacros] of [Switch.cpp], or of [runFile] of
    [ComputedGotos.cpp], that returns leaves the tape as long as it found
    it; if the cells it found were bytes, the cells it leaves and the
    bytes it has written are; and what it leaves of the input is the input
    without some characters at its front: it reads in order, and nothing
    that is not there. *)
Theorem run_keeps_tape_and_streams :
  (forall e src input fuel r,
     switch_.runMacros e src input fuel = Returned r ->
     vsize (memory (engine r)) = vsize (memory e) /\
     (bytes (memory e) -> bytes (memory (engine r)) /\ bytes (written r)) /\
     exists used, input = used ++ unread r) /\
  (forall e src input fuel r,
     computed_gotos.runFile e src input fuel = Returned r ->
     vsize (memory (engine r)) = vsize (memory e) /\
     (bytes (memory e) -> bytes (memory (engine r)) /\ bytes (written r)) /\
     exists used, input = used ++ unread r).
Proof.
  split; intros e src input fuel r Hrun.
  - by apply (run_with_evolves switch_.opcode_map switch_.dummy _
                switch_step_evolves e src input fuel).
  - by apply (run_with_evolves computed_gotos.opcode_map computed_gotos.dummy _
                gotos_step_evolves e src input fuel).
Qed.

Lemma run_keeps_tape_and_streams_witness :
  vsize [0; 65; 0] = vsize [0; 0; 0] /\
  (bytes [0; 0; 0] -> bytes [0; 65; 0] /\ bytes [65]) /\
  exists used, [65; 66] = used ++ [66].
Proof.
  apply (proj1 run_keeps_tape_and_streams
           (mkEngine [] [0; 0; 0]) (bf ">,.") [65; 66] 4%nat
           (mkRan (mkEngine [I_opcode switch_.RIGHT; I_opcode switch_.GET;
                             I_opcode switch_.PUT; I_opcode switch_.HALT]
                            [0; 65; 0]) [65] [66])).
  reflexivity.
Defined.

(** ** Calls on one engine *)

Lemma run_with_program {OpCode : Type} opcode_map dummy
    (step : list (Instruction OpCode) -> Machine -> Step) e src input fuel r :
  run_with opcode_map dummy step e src input fuel = Returned r ->
  vsize (program (engine r)) = vsize (program e) + slots opcode_map src + 1.
Proof.
  unfold run_with.
  destruct (CodePlanter.plantProgram _ _ _ _) as [cp|] eqn:Hcp; [|done].
  destruct (exec _ _ _); try done. intros H; inversion H; subst; simpl.
  by rewrite (plantProgram_size _ _ _ _ _ Hcp).
Qed.

Lemma run_files_size {OpCode : Type} opcode_map dummy
    (step : list (Instruction OpCode) -> Machine -> Step)
    (Hstep : forall p m, match step p m with
                         | Next m' | Done m' => evolves m m'
                         | Stuck _ => True
                         end) files :
  forall e input fuel r,
    run_files (run_with opcode_map dummy step) e files input fuel = Returned r ->
    vsize (program (engine r))
    = vsize (program e) + slots_of_files opcode_map files /\
    vsize (memory (engine r)) = vsize (memory e).
Proof.
  induction files as [|file files IH]; intros e input fuel r Hrun; simpl in Hrun.
  { inversion Hrun; subst; simpl. split; [lia|done]. }
  destruct (run_with _ _ _ e file input fuel) as [r1| |] eqn:H1; try done.
  destruct (run_files _ _ _ _ _) as [r2| |] eqn:H2; try done.
  inversion Hrun; subst r; clear Hrun. simpl.
  destruct (IH _ _ _ _ H2) as [Hp Hm].
  pose proof (run_with_program _ _ _ _ _ _ _ _ H1) as Hp1.
  destruct (run_with_evolves _ _ _ Hstep _ _ _ _ _ H1) as [Hm1 _].
  split; [lia|congruence].
Qed.

Lemma slots_of_files_replicate {OpCode : Type}
    (opcode_map : ascii -> option OpCode) (n : nat) file :
  slots_of_files opcode_map (replicate n file)
  = Z.of_nat n * (slots opcode_map file + 1).
Proof. induction n as [|n IH]; simpl slots_of_files; [lia|]. rewrite IH. lia. Qed.

(** X8: the calls of a run method on one engine never take anything away
    from its program.  After the calls for a list of files have returned,
    the program is longer by the slots of all the files and one [HALT] for
    each, and the tape is as long as before; so after the [n] turns of the
    loop of the benchmark [Switch], which plants the same file in every
    turn, the program holds [n] times the slots of that file and its
    [HALT]. *)
Theorem engine_program_grows :
  (forall files e input fuel r,
     run_files switch_.runMacros e files input fuel = Returned r ->
     vsize (program (engine r))
     = vsize (program e) + slots_of_files switch_.opcode_map files /\
     vsize (memory (engine r)) = vsize (memory e)) /\
  (forall (n : nat) file input fuel r,
     run_files switch_.runMacros new_Engine (replicate n file) input fuel
     = Returned r ->
     vsize (program (engine r))
     = Z.of_nat n * (slots switch_.opcode_map file + 1) /\
     vsize (memory (engine r)) = 30000) /\
  (forall files e input fuel r,
     run_files computed_gotos.runFile e files input fuel = Returned r ->
     vsize (program (engine r))
     = vsize (program e) + slots_of_files computed_gotos.opcode_map files /\
     vsize (memory (engine r)) = vsize (memory e)).
Proof.
  split; [|split].
  - intros files e input fuel r.
    apply (run_files_size switch_.opcode_map switch_.dummy switch_.step
             switch_step_evolves).
  - intros n file input fuel r Hrun.
    destruct (run_files_size switch_.opcode_map switch_.dummy switch_.step
                switch_step_evolves _ _ _ _ _ Hrun) as [Hp Hm].
    rewrite slots_of_files_replicate in Hp. split; [exact Hp|].
    rewrite Hm. vm_compute. reflexivity.
  - intros files e input fuel r.
    apply (run_files_size computed_gotos.opcode_map computed_gotos.dummy
             computed_gotos.step gotos_step_evolves).
Qed.

Lemma engine_program_grows_witness :
  vsize [I_opcode switch_.INCR; I_opcode switch_.PUT; I_opcode switch_.HALT;
         I_opcode switch_.INCR; I_opcode switch_.PUT; I_opcode switch_.HALT]
  = vsize (@nil (Instruction switch_.OpCode))
    + slots_of_files switch_.opcode_map [bf "+."; bf "+."] /\
  vsize [2; 0] = vsize [0; 0].
Proof.
  apply (proj1 engine_program_grows [bf "+."; bf "+."] (mkEngine [] [0; 0])
           [] 3%nat
           (mkRan (mkEngine
                     [I_opcode switch_.INCR; I_opcode switch_.PUT;
                      I_opcode switch_.HALT; I_opcode switch_.INCR;
                      I_opcode switch_.PUT; I_opcode switch_.HALT] [2; 0])
                  [1; 2] [])).
  reflexivity.
Defined.

Section Reruns.
Context {OpCode : Type}.
Variable opcode_map : ascii -> option OpCode.
Variable dummy : Instruction OpCode.
Variable step : list (Instruction OpCode) -> Machine -> Step.
Variables op_open op_close halt : OpCode.
Hypothesis map_open : opcode_map "["%char = Some op_open.
Hypothesis map_close : opcode_map "]"%char = Some op_close.
Hypothesis map_halt : opcode_map "000"%char = Some halt.
Hypothesis exec_app : forall p ext fuel m,
  exec (step p) fuel m <> Crashed PcRange ->
  exec (step (p ++ ext)) fuel m = exec (step p) fuel m.

(** On an engine whose program starts with a program [p1] that the
    dispatch loop never leaves, every call runs [p1]. *)
Lemma run_files_reruns p1 files :
  (forall fuel m, pc m = 0 -> exec (step p1) fuel m <> Crashed PcRange) ->
  forall e ext input fuel,
    program e = p1 ++ ext ->
    plantable opcode_map (vsize (program e)) files ->
    observe (run_files (run_with opcode_map dummy step) e files input fuel)
    = reruns (step p1) (length files) (memory e) input fuel.
Proof.
  intros Hsafe. induction files as [|file files IH];
    intros e ext input fuel He Hpl; [done|].
  destruct Hpl as (Hf & Hn & Hpl). simpl.
  pose proof (plantProgram_nesting opcode_map dummy op_open op_close
                map_open map_close halt map_halt file (program e)) as Hnest.
  destruct (nesting 0 file) as [d|]; [|done].
  destruct Hnest as (p' & ix' & Hcp & _); [exact Hf|].
  destruct (plantProgram_extends opcode_map dummy halt map_halt
              file (program e) _ Hf Hcp) as [ext' Hext]. simpl in Hext.
  pose proof (plantProgram_size _ _ _ _ _ Hcp) as Hsz. simpl in Hsz.
  unfold run_with at 1. rewrite Hcp. simpl.
  rewrite Hext, He, <- app_assoc.
  rewrite exec_app by (by apply Hsafe).
  destruct (exec (step p1) fuel _) as [m| |]; try done. simpl.
  specialize (IH (mkEngine (p1 ++ ext ++ ext') (mem m)) (ext ++ ext')
                (cin m) fuel eq_refl).
  simpl in IH. rewrite <- IH.
  - by destruct (run_files _ _ _ _ _).
  - rewrite app_assoc, <- He, <- Hext, Hsz. exact Hpl.
Qed.

End Reruns.

(** X9: once a call for a balanced text has returned on a fresh engine,
    every further call on that engine, whatever file it is given, runs the
    program of that first text: the calls for a list of files write,
    leave on the tape and leave of the input what as many runs of the
    first program do, each on the tape and the input of the one before.
    The files themselves are planted and never run, so that of the three
    files of [TEST( CG_DirectThreadedCode, NoChange )] only the first
    decides what the test compares. *)
Theorem further_calls_rerun_first (src1 : list ascii) :
  short src1 -> balanced src1 ->
  (forall in1 fuel1 r1 files input fuel,
     switch_.runMacros new_Engine src1 in1 fuel1 = Returned r1 ->
     plantable switch_.opcode_map (vsize (program (engine r1))) files ->
     observe (run_files switch_.runMacros (engine r1) files input fuel)
     = reruns (switch_.step (program (engine r1))) (length files)
         (memory (engine r1)) input fuel) /\
  (forall in1 fuel1 r1 files input fuel,
     computed_gotos.runFile new_Engine src1 in1 fuel1 = Returned r1 ->
     plantable computed_gotos.opcode_map (vsize (program (engine r1))) files ->
     observe (run_files computed_gotos.runFile (engine r1) files input fuel)
     = reruns (computed_gotos.step (program (engine r1))) (length files)
         (memory (engine r1)) input fuel).
Proof.
  intros Hs Hbal. split; intros in1 fuel1 r1 files input fuel Hrun Hpl.
  - apply (run_files_reruns switch_.opcode_map switch_.dummy switch_.step
             switch_.OPEN switch_.CLOSE switch_.HALT eq_refl eq_refl eq_refl
             switch_exec_app (program (engine r1)) files
             (switch_first_program src1 in1 fuel1 r1 Hs Hbal Hrun)
             (engine r1) []); [by rewrite app_nil_r|done].
  - apply (run_files_reruns computed_gotos.opcode_map computed_gotos.dummy
             computed_gotos.step _ _ _ eq_refl eq_refl eq_refl
             gotos_exec_app (program (engine r1)) files
             (gotos_first_program src1 in1 fuel1 r1 Hs Hbal Hrun)
             (engine r1) []); [by rewrite app_nil_r|done].
Qed.

Lemma further_calls_rerun_first_witness :
  observe (run_files switch_.runMacros
             (mkEngine [I_opcode switch_.INCR; I_opcode switch_.PUT;
                        I_opcode switch_.HALT] (vset fresh_memory 0 1))
             [bf "-."; bf ",["] [] 3)
  = reruns (switch_.step [I_opcode switch_.INCR; I_opcode switch_.PUT;
                          I_opcode switch_.HALT])
      2 (vset fresh_memory 0 1) [] 3.
Proof.
  apply (proj1 (further_calls_rerun_first (bf "+.")
                  ltac:(vm_compute; reflexivity) ltac:(reflexivity))
           [] 3%nat
           (mkRan (mkEngine [I_opcode switch_.INCR; I_opcode switch_.PUT;
                             I_opcode switch_.HALT]
                            (vset fresh_memory 0 1)) [1] [])
           [bf "-."; bf ",["] [] 3%nat).
  - vm_cast_no_check
      (eq_refl (Returned
         (mkRan (mkEngine [I_opcode switch_.INCR; I_opcode switch_.PUT;
                           I_opcode switch_.HALT]
                          (vset fresh_memory 0 1)) [1] []))).
  - repeat split; try discriminate; vm_compute; reflexivity.
Defined.

(** ** Texts without brackets *)

Lemma length_instructions {OpCode : Type} (opcode_map : ascii -> option OpCode) src :
  (length (instructions opcode_map src) <= length src)%nat.
Proof.
  unfold instructions. rewrite length_fmap.
  induction src as [|ch src IH]; [done|].
  change (omap opcode_map (ch :: src))
    with (match opcode_map ch with
          | Some op => op :: omap opcode_map src
          | None => omap opcode_map src
          end).
  destruct (opcode_map ch); simpl length; lia.
Qed.

(** Without brackets the planter only appends, whatever the sizes. *)
Lemma plantChars_bracket_free {OpCode : Type} opcode_map
    (dummy : Instruction OpCode) src : forall p ix,
  bracket_free src = true ->
  CodePlanter.plantChars opcode_map dummy src (CodePlanter.mk p ix)
  = Ok (CodePlanter.mk (p ++ instructions opcode_map src) ix).
Proof.
  induction src as [|ch src IH]; intros p ix Hb; simpl.
  { by rewrite app_nil_r. }
  simpl in Hb. apply andb_true_iff in Hb as [Hch Hb].
  apply negb_true_iff, orb_false_iff in Hch as [Ho%Ascii.eqb_neq Hc%Ascii.eqb_neq].
  rewrite instructions_cons.
  destruct (opcode_map ch) as [op|] eqn:Hm.
  - rewrite (plantChar_plain opcode_map dummy ch op) by done.
    rewrite IH by done. by rewrite <- app_assoc.
  - rewrite plantChar_skip by done. by apply IH.
Qed.

Lemma bracket_free_plain ch src op :
  bracket_free src = true -> In ch src ->
  switch_.opcode_map ch = Some op -> switch_.takes_operand op = false.
Proof.
  intros Hb Hin Hm. unfold bracket_free in Hb. rewrite forallb_forall in Hb.
  specialize (Hb ch Hin). rewrite (switch_map_kind ch op Hm).
  by apply negb_true_iff in Hb.
Qed.

Lemma instructions_plain src i :
  bracket_free src = true -> i ∈ instructions switch_.opcode_map src ->
  exists op, i = I_opcode op /\ switch_.takes_operand op = false.
Proof.
  intros Hb Hi. unfold instructions in Hi.
  apply list_elem_of_fmap in Hi as (op & -> & Hop).
  apply list_elem_of_omap in Hop as (ch & Hch & Hm).
  exists op. split; [done|].
  apply (bracket_free_plain ch src op Hb); [by apply list_elem_of_In|done].
Qed.

(** A step on an opcode without operand goes on to the next slot,
    returns, or leaves the tape. *)
Lemma switch_step_plain p m op :
  vget p (pc m) = Some (I_opcode op) -> switch_.takes_operand op = false ->
  match switch_.step p m with
  | Next m' => pc m' = pc m + 1 /\ op <> switch_.HALT
  | Done _ => True
  | Stuck f => f = TapeRange
  end.
Proof.
  intros Hp Ht. unfold switch_.step. rewrite Hp.
  destruct op; try done; simpl.
  - unfold do_add. by destruct (deref _).
  - unfold do_add. by destruct (deref _).
  - unfold do_put. by destruct (deref _).
  - unfold do_get. simpl. destruct (cin m); [done|]. by destruct (deref _).
Qed.

Lemma straight_line_halts ops (n : nat) : forall m,
  (forall i, i ∈ ops ->
     exists op, i = I_opcode op /\ switch_.takes_operand op = false) ->
  0 <= pc m <= vsize ops -> vsize ops - pc m < Z.of_nat n ->
  match exec (switch_.step (ops ++ [I_opcode switch_.HALT])) n m with
  | Returned _ => True
  | Crashed f => f = TapeRange
  | Running => False
  end.
Proof.
  induction n as [|n IH]; intros m Hops Hpc Hn; [lia|]. simpl.
  assert (Hget : exists op,
            vget (ops ++ [I_opcode switch_.HALT]) (pc m) = Some (I_opcode op) /\
            switch_.takes_operand op = false /\
            (pc m = vsize ops -> op = switch_.HALT)).
  { destruct (Z.eq_dec (pc m) (vsize ops)) as [Heq|Hne].
    - exists switch_.HALT. rewrite Heq, vget_app_0. done.
    - destruct (vget_range_Some ops (pc m)) as [i Hi]; [lia|].
      destruct (Hops i) as (op & -> & Ht).
      { apply vget_lookup in Hi as [_ Hi]. by apply list_elem_of_lookup_2 in Hi. }
      exists op. rewrite vget_app_l by lia. done. }
  destruct Hget as (op & Hg & Ht & Hlast).
  pose proof (switch_step_plain _ m op Hg Ht) as Hst.
  destruct (switch_.step _ m) as [m'| |]; try done.
  destruct Hst as [Hpc' Hne].
  apply IH; [done| |lia].
  assert (pc m <> vsize ops) by (intros Heq; by apply Hne, Hlast). lia.
Qed.

(** X10: a text without brackets always comes to an end.  On a fresh
    engine the call plants its opcodes and a [HALT] and nothing else, and
    with one turn of the dispatch loop for every character and one more
    it has returned, or it has left the tape; it does not run on, and it
    reads no slot that is not an opcode of the program. *)
Theorem text_without_brackets_halts (src : list ascii) (input : list Z) :
  bracket_free src = true ->
  switch_.compile src
  = Ok (CodePlanter.mk
          (instructions switch_.opcode_map src ++ [I_opcode switch_.HALT]) []) /\
  match switch_.runMacros new_Engine src input (S (length src)) with
  | Returned r =>
      program (engine r)
      = instructions switch_.opcode_map src ++ [I_opcode switch_.HALT]
  | Crashed f => f = TapeRange
  | Running => False
  end.
Proof.
  intros Hb.
  assert (Hcp : switch_.compile src
                = Ok (CodePlanter.mk
                        (instructions switch_.opcode_map src
                           ++ [I_opcode switch_.HALT]) [])).
  { unfold switch_.compile, CodePlanter.plantProgram.
    by rewrite plantChars_bracket_free. }
  split; [done|]. unfold switch_.runMacros, run_with.
  change (CodePlanter.plantProgram switch_.opcode_map switch_.dummy src
            (CodePlanter.mk (program new_Engine) []))
    with (switch_.compile src).
  rewrite Hcp. simpl CodePlanter.program.
  pose proof (straight_line_halts (instructions switch_.opcode_map src)
                (S (length src))
                (mkMachine 0 0 (memory (@new_Engine switch_.OpCode)) input [])
                (fun i => instructions_plain src i Hb)) as Hh.
  pose proof (length_instructions switch_.opcode_map src) as Hlen.
  pose proof (vsize_nonneg (instructions switch_.opcode_map src)).
  destruct (exec _ _ _); [done| |]; apply Hh; simpl; unfold vsize in *; lia.
Qed.

Lemma text_without_brackets_halts_witness :
  switch_.compile (bf "+a>.")
  = Ok (CodePlanter.mk
          (instructions switch_.opcode_map (bf "+a>.") ++ [I_opcode switch_.HALT])
          []) /\
  match switch_.runMacros new_Engine (bf "+a>.") [] (S (length (bf "+a>."))) with
  | Returned r =>
      program (engine r)
      = instructions switch_.opcode_map (bf "+a>.") ++ [I_opcode switch_.HALT]
  | Crashed f => f = TapeRange
  | Running => False
  end.
Proof. apply (text_without_brackets_halts (bf "+a>.") []). reflexivity. Defined.

(** ** Where direct_threading_demo.cpp agrees with the other files *)

(** What holds of the dummy, of every operand and of the opcode of every
    character of the text holds of every slot that the planter leaves. *)
Lemma plantChars_Forall {OpCode : Type} (opcode_map : ascii -> option OpCode)
    (dummy : Instruction OpCode) (P : Instruction OpCode -> Prop) :
  P dummy -> (forall n, P (I_operand n)) ->
  forall src cp cp',
    (forall ch op, In ch src -> opcode_map ch = Some op -> P (I_opcode op)) ->
    Forall P (CodePlanter.program cp) ->
    CodePlanter.plantChars opcode_map dummy src cp = Ok cp' ->
    Forall P (CodePlanter.program cp').
Proof.
  intros Hd Ho src. induction src as [|ch src IH]; intros cp cp' Hs Hp Heq;
    simpl in Heq.
  { by inversion Heq; subst. }
  destruct (CodePlanter.plantChar opcode_map dummy ch cp) as [cp1|] eqn:Hc;
    [|done].
  apply (IH cp1 cp'); [intros c op Hin; apply Hs; by right| |done].
  unfold CodePlanter.plantChar in Hc.
  destruct (opcode_map ch) as [op|] eqn:Hm; [|by inversion Hc; subst].
  assert (Hop : P (I_opcode op)) by (apply (Hs ch); [by left|done]).
  destruct (ch =? "[")%char.
  { inversion Hc; subst; simpl. rewrite !Forall_app.
    repeat split; [done| |]; by repeat constructor. }
  destruct (ch =? "]")%char.
  - destruct (CodePlanter.indexes cp) as [|start rest]; [done|].
    destruct (in_range _ start); [|done].
    inversion Hc; subst; simpl. rewrite Forall_app. split.
    + unfold vset. apply Forall_insert; [|done].
      rewrite Forall_app. split; [done|]. by repeat constructor.
    + by repeat constructor.
  - inversion Hc; subst; simpl. rewrite Forall_app. split; [done|].
    by repeat constructor.
Qed.

Lemma no_move_no_bracket_free src :
  no_move_no_bracket src = true -> bracket_free src = true.
Proof.
  unfold no_move_no_bracket, bracket_free. rewrite !forallb_forall.
  intros H ch Hin. specialize (H ch Hin).
  destruct (ch =? "[")%char; [done|]. by destruct (ch =? "]")%char.
Qed.

Lemma gotos_map_plain ch op :
  negb ((ch =? "[") || (ch =? "]") || (ch =? "<") || (ch =? ">"))%char = true ->
  computed_gotos.opcode_map ch = Some op ->
  exists l, op = computed_gotos.address_of l /\ plain_label l = true.
Proof.
  destruct ch as [[] [] [] [] [] [] [] []]; simpl; intros Hn H;
    try discriminate; inversion H; subst; eexists; split; reflexivity.
Qed.

Lemma gotos_instructions_plain src i :
  no_move_no_bracket src = true ->
  i ∈ instructions computed_gotos.opcode_map src ->
  exists l, i = I_opcode (computed_gotos.address_of l) /\ plain_label l = true.
Proof.
  intros Hs Hi. unfold instructions in Hi.
  apply list_elem_of_fmap in Hi as (op & -> & Hop).
  apply list_elem_of_omap in Hop as (ch & Hch & Hm).
  unfold no_move_no_bracket in Hs. rewrite forallb_forall in Hs.
  destruct (gotos_map_plain ch op) as (l & -> & Hl); [|done|by exists l].
  apply Hs. by apply list_elem_of_In.
Qed.

(** With [loc] on cell 0 of a tape that has a cell 0, a step at one of
    these labels goes on to the next slot, on cell 0 of a tape of the
    same length, or returns. *)
Lemma gotos_step_plain p m l :
  vget p (pc m) = Some (I_opcode (computed_gotos.address_of l)) ->
  plain_label l = true -> loc m = 0 -> 0 < vsize (mem m) ->
  match computed_gotos.step p m with
  | Next m' =>
      pc m' = pc m + 1 /\ loc m' = 0 /\ vsize (mem m') = vsize (mem m) /\
      l <> computed_gotos.HALT
  | Done _ => True
  | Stuck _ => False
  end.
Proof.
  intros Hp Hl Hloc Hmem. unfold computed_gotos.step. rewrite Hp.
  assert (Hd : exists c, deref (set_pc (pc m + 1) m) = Some c).
  { unfold deref; simpl. rewrite Hloc. apply vget_range_Some. lia. }
  destruct Hd as [c Hd].
  destruct l; try done; simpl.
  - unfold do_add. rewrite Hd. simpl. by rewrite vsize_vset.
  - unfold do_add. rewrite Hd. simpl. by rewrite vsize_vset.
  - unfold do_put. rewrite Hd. done.
  - unfold do_get. simpl. destruct (cin m) as [|ch rest]; [done|].
    change (deref (set_cin rest (set_pc (pc m + 1) m)))
      with (deref (set_pc (pc m + 1) m)).
    rewrite Hd. simpl. by rewrite vsize_vset.
Qed.

Lemma gotos_plain_returns ops (n : nat) : forall m,
  (forall i, i ∈ ops ->
     exists l, i = I_opcode (computed_gotos.address_of l) /\ plain_label l = true) ->
  0 <= pc m <= vsize ops -> vsize ops - pc m < Z.of_nat n ->
  loc m = 0 -> 0 < vsize (mem m) ->
  exists m',
    exec (computed_gotos.step
            (ops ++ [I_opcode (computed_gotos.address_of computed_gotos.HALT)]))
      n m = Returned m'.
Proof.
  induction n as [|n IH]; intros m Hops Hpc Hn Hloc Hmem; [lia|]. simpl.
  assert (Hget : exists l,
            vget (ops ++ [I_opcode (computed_gotos.address_of computed_gotos.HALT)])
              (pc m) = Some (I_opcode (computed_gotos.address_of l)) /\
            plain_label l = true /\
            (pc m = vsize ops -> l = computed_gotos.HALT)).
  { destruct (Z.eq_dec (pc m) (vsize ops)) as [Heq|Hne].
    - exists computed_gotos.HALT. rewrite Heq, vget_app_0. done.
    - destruct (vget_range_Some ops (pc m)) as [i Hi]; [lia|].
      destruct (Hops i) as (l & -> & Hl).
      { apply vget_lookup in Hi as [_ Hi]. by apply list_elem_of_lookup_2 in Hi. }
      exists l. rewrite vget_app_l by lia. done. }
  destruct Hget as (l & Hg & Hl & Hlast).
  pose proof (gotos_step_plain _ m l Hg Hl Hloc Hmem) as Hst.
  destruct (computed_gotos.step _ m) as [m1|m1|]; [|by exists m1|done].
  destruct Hst as (Hpc1 & Hloc1 & Hmem1 & Hne).
  assert (pc m <> vsize ops) by (intros Heq; by apply Hne, Hlast).
  apply IH; [done|lia|lia|done|lia].
Qed.

(** On a slot that is not a [CLOSE], a [LEFT] or a [RIGHT], the labels of
    [direct_threading_demo.cpp] do what the labels of [ComputedGotos.cpp]
    do. *)
Lemma demo_step_plain (p : list (Instruction computed_gotos.OpCode)) m :
  Forall (fun i => move_or_close i = false) p ->
  direct_threading_demo.step p m = computed_gotos.step p m.
Proof.
  intros Hp. unfold direct_threading_demo.step, computed_gotos.step,
    direct_threading_demo.OpCode.
  destruct (vget p (pc m)) as [i|] eqn:Hi; [|done].
  assert (Hin : i ∈ p).
  { apply vget_lookup in Hi as [_ Hi]. by apply list_elem_of_lookup_2 in Hi. }
  rewrite list.Forall_forall in Hp. specialize (Hp i Hin).
  destruct i as [[|l]|n]; [done| |done]. by destruct l.
Qed.

(** X11: on a text without brackets and without [<] and [>],
    [runFile] of [direct_threading_demo.cpp] does what [runFile] of
    [ComputedGotos.cpp] does.  On a fresh engine, with one turn of the
    dispatch loop for every character and one more, both calls have
    returned, and they have written the same bytes, left the same tape
    and left the same input unread: the blocks at [INCR], [DECR], [PUT],
    [GET] and [HALT], the planter and the frame of the two files agree. *)
Theorem demo_agrees_on_plain_texts (src : list ascii) (input : list Z)
    (fuel : nat) :
  no_move_no_bracket src = true -> (length src < fuel)%nat ->
  exists w t u,
    observe (computed_gotos.runFile new_Engine src input fuel)
    = Returned (w, t, u) /\
    observe (direct_threading_demo.runFile new_Engine src input fuel)
    = Returned (w, t, u).
Proof.
  intros Hs Hfuel.
  set (halt := I_opcode (computed_gotos.address_of computed_gotos.HALT)).
  set (ops := instructions computed_gotos.opcode_map src).
  assert (Hcp : CodePlanter.plantProgram computed_gotos.opcode_map
                  computed_gotos.dummy src (CodePlanter.mk [] [])
                = Ok (CodePlanter.mk (ops ++ [halt]) [])).
  { unfold CodePlanter.plantProgram.
    by rewrite plantChars_bracket_free by (by apply no_move_no_bracket_free). }
  assert (Hplain : Forall (fun i => move_or_close i = false) (ops ++ [halt])).
  { rewrite Forall_app. split; [|by repeat constructor].
    rewrite list.Forall_forall. intros i Hi.
    destruct (gotos_instructions_plain src i Hs Hi) as (l & -> & Hl).
    by destruct l. }
  destruct (gotos_plain_returns ops fuel (mkMachine 0 0 fresh_memory input [])
              (fun i => gotos_instructions_plain src i Hs)) as [m' Hex].
  { simpl. pose proof (vsize_nonneg ops). lia. }
  { simpl. pose proof (length_instructions computed_gotos.opcode_map src).
    unfold ops, vsize. lia. }
  { done. }
  { simpl. unfold fresh_memory, vsize. rewrite length_replicate. lia. }
  exists (outStream m'), (mem m'), (cin m').
  unfold direct_threading_demo.runFile, computed_gotos.runFile, run_with.
  rewrite (plantProgram_same_map direct_threading_demo.opcode_map
             computed_gotos.opcode_map direct_threading_demo.dummy demo_map_eq).
  change direct_threading_demo.dummy with computed_gotos.dummy.
  unfold direct_threading_demo.OpCode. simpl program. simpl memory.
  rewrite Hcp. simpl CodePlanter.program.
  rewrite (exec_ext (computed_gotos.step (ops ++ [halt]))
             (direct_threading_demo.step (ops ++ [halt]))
             (fun m => demo_step_plain (ops ++ [halt]) m Hplain)).
  change (memory new_Engine) with fresh_memory. subst halt.
  by rewrite Hex.
Qed.

Lemma demo_agrees_on_plain_texts_witness :
  exists w t u,
    observe (computed_gotos.runFile new_Engine (bf ",+x.-") [7] 6)
    = Returned (w, t, u) /\
    observe (direct_threading_demo.runFile new_Engine (bf ",+x.-") [7] 6)
    = Returned (w, t, u).
Proof.
  apply (demo_agrees_on_plain_texts (bf ",+x.-") [7] 6%nat).
  - reflexivity.
  - simpl. lia.
Defined.

(** ** Loops at run time *)

Lemma switch_bracket_step p m n cell :
  vget p (pc m + 1) = Some (I_operand n) -> deref m = Some cell ->
  (vget p (pc m) = Some (I_opcode switch_.OPEN) ->
   switch_.step p m = Next (set_pc (if cell =? 0 then n else pc m + 2) m)) /\
  (vget p (pc m) = Some (I_opcode switch_.CLOSE) ->
   switch_.step p m = Next (set_pc (if cell =? 0 then pc m + 2 else n) m)).
Proof.
  intros Hn Hc. unfold switch_.step. split; intros ->.
  - by rewrite (do_jump_spec p is_zero m n cell).
  - rewrite (do_jump_spec p not_zero m n cell) by done.
    unfold not_zero. by destruct (cell =? 0).
Qed.

Lemma gotos_bracket_step p m n cell :
  vget p (pc m + 1) = Some (I_operand n) -> deref m = Some cell ->
  (vget p (pc m) = Some (I_opcode (computed_gotos.address_of computed_gotos.OPEN)) ->
   computed_gotos.step p m
   = Next (set_pc (if cell =? 0 then n else pc m + 2) m)) /\
  (vget p (pc m) = Some (I_opcode (computed_gotos.address_of computed_gotos.CLOSE)) ->
   computed_gotos.step p m
   = Next (set_pc (if cell =? 0 then pc m + 2 else n) m)).
Proof.
  intros Hn Hc. unfold computed_gotos.step. split; intros ->; simpl.
  - by rewrite (do_jump_spec p is_zero m n cell).
  - rewrite (do_jump_spec p not_zero m n cell) by done.
    unfold not_zero. by destruct (cell =? 0).
Qed.

(** X12: the two brackets of a loop work as [while ( *loc ) { body }].
    In the program planted for a text with a loop (an open bracket, a
    balanced body, a close bracket), a step from the slot of the [OPEN]
    and a step from the slot of the [CLOSE] lead to the same place and
    change nothing else: to the first slot of the body when the cell
    under [loc] is not 0, to the first slot behind the loop when it is 0.
    It holds in the switch of [Switch.cpp] and at the labels of
    [ComputedGotos.cpp]. *)
Theorem brackets_work_as_while (pre body post : list ascii) :
  short (pre ++ "["%char :: body ++ "]"%char :: post) -> balanced body ->
  (forall cp m cell,
     switch_.compile (pre ++ "["%char :: body ++ "]"%char :: post) = Ok cp ->
     deref m = Some cell ->
     pc m = slots switch_.opcode_map pre \/
     pc m = slots switch_.opcode_map pre + 2 + slots switch_.opcode_map body ->
     switch_.step (CodePlanter.program cp) m
     = Next (set_pc
               (if cell =? 0
                then slots switch_.opcode_map pre + 2
                     + slots switch_.opcode_map body + 2
                else slots switch_.opcode_map pre + 2) m)) /\
  (forall cp m cell,
     computed_gotos.compile (pre ++ "["%char :: body ++ "]"%char :: post) = Ok cp ->
     deref m = Some cell ->
     pc m = slots computed_gotos.opcode_map pre \/
     pc m = slots computed_gotos.opcode_map pre + 2
            + slots computed_gotos.opcode_map body ->
     computed_gotos.step (CodePlanter.program cp) m
     = Next (set_pc
               (if cell =? 0
                then slots computed_gotos.opcode_map pre + 2
                     + slots computed_gotos.opcode_map body + 2
                else slots computed_gotos.opcode_map pre + 2) m)).
Proof.
  intros Hf Hbal.
  pose proof (short_fits (I := Instruction switch_.OpCode) _ Hf).
  pose proof (short_fits (I := Instruction computed_gotos.OpCode) _ Hf).
  split; intros cp m cell Hcp Hcell Hpc.
  - unfold switch_.compile in Hcp.
    rewrite (plantProgram_eq _ _ switch_.HALT) in Hcp by done.
    destruct (CodePlanter.plantChars _ _ _ _) as [cp'|] eqn:Hpl; [|done].
    inversion Hcp; subst; clear Hcp. simpl.
    destruct (plantChars_loop switch_.opcode_map switch_.dummy
                switch_.OPEN switch_.CLOSE eq_refl eq_refl [] pre body post cp')
      as (H1 & H2 & H3 & H4); try done.
    change (vsize []) with 0 in *. rewrite Z.add_0_l in *.
    pose proof (vget_Some_range _ _ _ H1). pose proof (vget_Some_range _ _ _ H2).
    pose proof (vget_Some_range _ _ _ H3). pose proof (vget_Some_range _ _ _ H4).
    destruct Hpc as [Hpc|Hpc]; rewrite <- Hpc in *.
    + apply (switch_bracket_step _ m _ cell); [|done|];
        by rewrite vget_app_l by lia.
    + apply (switch_bracket_step _ m _ cell); [|done|];
        by rewrite vget_app_l by lia.
  - unfold computed_gotos.compile in Hcp.
    rewrite (plantProgram_eq _ _ (computed_gotos.address_of computed_gotos.HALT))
      in Hcp by done.
    destruct (CodePlanter.plantChars _ _ _ _) as [cp'|] eqn:Hpl; [|done].
    inversion Hcp; subst; clear Hcp. simpl.
    destruct (plantChars_loop computed_gotos.opcode_map computed_gotos.dummy
                (computed_gotos.address_of computed_gotos.OPEN)
                (computed_gotos.address_of computed_gotos.CLOSE)
                eq_refl eq_refl [] pre body post cp')
      as (H1 & H2 & H3 & H4); try done.
    change (vsize []) with 0 in *. rewrite Z.add_0_l in *.
    pose proof (vget_Some_range _ _ _ H1). pose proof (vget_Some_range _ _ _ H2).
    pose proof (vget_Some_range _ _ _ H3). pose proof (vget_Some_range _ _ _ H4).
    destruct Hpc as [Hpc|Hpc]; rewrite <- Hpc in *.
    + apply (gotos_bracket_step _ m _ cell); [|done|];
        by rewrite vget_app_l by lia.
    + apply (gotos_bracket_step _ m _ cell); [|done|];
        by rewrite vget_app_l by lia.
Qed.

Lemma brackets_work_as_while_witness :
  switch_.step
    [I_opcode switch_.INCR; I_opcode switch_.OPEN; I_operand 6;
     I_opcode switch_.DECR; I_opcode switch_.CLOSE; I_operand 3;
     I_opcode switch_.PUT; I_opcode switch_.HALT]
    (mkMachine 4 0 [5] [] [])
  = Next (set_pc 3 (mkMachine 4 0 [5] [] [])).
Proof.
  exact (proj1 (brackets_work_as_while (bf "+") (bf "-") (bf ".")
                  ltac:(vm_compute; reflexivity) ltac:(reflexivity))
           (CodePlanter.mk
              [I_opcode switch_.INCR; I_opcode switch_.OPEN; I_operand 6;
               I_opcode switch_.DECR; I_opcode switch_.CLOSE; I_operand 3;
               I_opcode switch_.PUT; I_opcode switch_.HALT] [])
           (mkMachine 4 0 [5] [] []) 5 eq_refl eq_refl (or_intror eq_refl)).
Defined.
